(** * Browser tracing integration: interaction cache and route spans

    A shallow embedding of
    [packages/tracing-internal/src/browser/browserTracingIntegration.ts].

    JavaScript numbers that the code only compares, maximises and stores
    (durations, start times, interaction ids, timeouts in ms) are integers
    of [Z], so [NaN] and fractional interaction ids are outside the model;
    [undefined] is [None]. Request instrumentation, logging and the
    callbacks that collect web vitals do not touch the state modelled here
    and are left out. *)

From Stdlib Require Import String ZArith List Bool Lia Permutation PeanoNat Sorted.
Import ListNotations.

Local Open Scope string_scope.
Local Open Scope list_scope.
Local Open Scope Z_scope.

(** ** Transaction contexts *)

(** The fields of [TransactionContext] / [StartSpanOptions] that the
    integration reads or writes. *)
Module Ctx.
Record t : Type := mk {
  name : string;
  op : option string;
  traceId : option string;
  parentSpanId : option string;
  parentSampled : option bool;
  sampled : option bool;
  origin : option string;
  attributesSource : option string;  (* attributes[SEMANTIC_ATTRIBUTE_SENTRY_SOURCE] *)
  dataSource : option string;        (* data[SEMANTIC_ATTRIBUTE_SENTRY_SOURCE] *)
  metadataSource : option string;    (* metadata.source *)
  dynamicSamplingContext : option string;
  trimEnd : option bool
}.
End Ctx.
Definition TransactionContext : Type := Ctx.t.

(** [a || b] on optional strings: the empty string is falsy. *)
Definition orElse (a b : option string) : option string :=
  match a with
  | Some s => if String.eqb s "" then b else a
  | None => b
  end.

Definition getSource (context : TransactionContext) : option string :=
  let sourceFromAttributes := Ctx.attributesSource context in
  let sourceFromData := Ctx.dataSource context in
  let sourceFromMetadata := Ctx.metadataSource context in
  orElse (orElse sourceFromAttributes sourceFromData) sourceFromMetadata.

(** The shared mutable cell [latestRoute]. *)
Module Route.
Record t : Type := mk {
  name : option string;
  context : option TransactionContext
}.
Definition initial : t := mk None None.
End Route.
Definition LatestRoute : Type := Route.t.

(** ** The interaction cache *)

(** A [PerformanceEntry] as [handleEntries] reads it. Every
    [PerformanceEntry] carries [duration], so [isPerformanceEventTiming]
    holds of all of them; [interactionId] may be [undefined]. *)
Module Entry.
Record t : Type := mk {
  entryType : string;
  interactionId : option Z;
  duration : Z;
  startTime : Z
}.
End Entry.
Definition PerformanceEntry : Type := Entry.t.

Definition isPerformanceEventTiming (entry : PerformanceEntry) : bool := true.

(** One value of [InteractionRouteNameMapping]. *)
Record InteractionRecord : Type := mkInteraction {
  routeName : string;
  duration : Z;
  parentContext : TransactionContext;
  user : option string;
  activeTransaction : option nat;
  replayId : option string;
  startTime : Z
}.

Definition withDuration (r : InteractionRecord) (d : Z) : InteractionRecord :=
  mkInteraction (routeName r) d (parentContext r) (user r)
                (activeTransaction r) (replayId r) (startTime r).

(** [interactionIdToRouteNameMapping]: a JavaScript object used as a map,
    kept as the list of its own properties in [Object.keys] order: keys
    that are array indices (0 .. 2^32 - 2) first, ascending, then the other
    keys in insertion order. *)
Definition InteractionRouteNameMapping : Type := list (Z * InteractionRecord).

Definition MAX_INTERACTIONS : nat := 10.

Definition isArrayIndex (k : Z) : bool := (0 <=? k) && (k <? 4294967295).

Definition keys (m : InteractionRouteNameMapping) : list Z := map fst m.

(** [m[k]] *)
Fixpoint get (k : Z) (m : InteractionRouteNameMapping) : option InteractionRecord :=
  match m with
  | [] => None
  | (k', r) :: t => if k =? k' then Some r else get k t
  end.

(** [delete m[k]] *)
Fixpoint del (k : Z) (m : InteractionRouteNameMapping) : InteractionRouteNameMapping :=
  match m with
  | [] => []
  | (k', r) :: t => if k =? k' then del k t else (k', r) :: del k t
  end.

Fixpoint replace (k : Z) (v : InteractionRecord) (m : InteractionRouteNameMapping)
  : InteractionRouteNameMapping :=
  match m with
  | [] => []
  | (k', r) :: t => if k =? k' then (k, v) :: t else (k', r) :: replace k v t
  end.

Fixpoint insertIndex (k : Z) (v : InteractionRecord) (m : InteractionRouteNameMapping)
  : InteractionRouteNameMapping :=
  match m with
  | [] => [(k, v)]
  | (k', r) :: t =>
      if isArrayIndex k' && (k' <? k) then (k', r) :: insertIndex k v t
      else (k, v) :: (k', r) :: t
  end.

(** [m[k] = v] *)
Definition put (k : Z) (v : InteractionRecord) (m : InteractionRouteNameMapping)
  : InteractionRouteNameMapping :=
  match get k m with
  | Some _ => replace k v m
  | None => if isArrayIndex k then insertIndex k v m else m ++ [(k, v)]
  end.

(** [m[k].duration] for a key of [Object.keys(m)]. *)
Definition durationOf (m : InteractionRouteNameMapping) (k : Z) : Z :=
  match get k m with
  | Some r => duration r
  | None => 0
  end.

(** [keys.length > 0 ? keys.reduce((a, b) => m[a].duration < m[b].duration ? a : b) : undefined] *)
Definition minInteractionId (m : InteractionRouteNameMapping) : option Z :=
  match keys m with
  | [] => None
  | k :: ks =>
      Some (fold_left (fun a b => if durationOf m a <? durationOf m b then a else b) ks k)
  end.

(** [keys.map(key => m[key]).some(i => i.duration === duration && i.startTime === startTime)] *)
Definition matchingEntry (m : InteractionRouteNameMapping) (d s : Z) : bool :=
  existsb (fun k =>
             match get k m with
             | Some interaction => (duration interaction =? d) && (startTime interaction =? s)
             | None => false
             end) (keys m).

(** What [handleEntries] reads once per batch, and the route cell. *)
Record Env : Type := mkEnv {
  latestRoute : LatestRoute;
  envReplayId : option string;
  envActiveTransaction : option nat;
  envUser : option string
}.

Definition truthy (s : option string) : option string :=
  match s with
  | Some x => if String.eqb x "" then None else Some x
  | None => None
  end.

(** The body of [entries.forEach(entry => ...)]. *)
Definition handleEntry (env : Env) (m : InteractionRouteNameMapping)
           (entry : PerformanceEntry) : InteractionRouteNameMapping :=
  if isPerformanceEventTiming entry then
    match Entry.interactionId entry with
    | None => m
    | Some interactionId =>
        let existingInteraction := get interactionId m in
        let duration_ := Entry.duration entry in
        let startTime_ := Entry.startTime entry in
        let ks := keys m in
        let minId := minInteractionId m in
        if String.eqb (Entry.entryType entry) "first-input"
           && matchingEntry m duration_ startTime_ then m
        else if interactionId =? 0 then m
        else
          match existingInteraction with
          | Some existing =>
              put interactionId
                  (withDuration existing (Z.max (duration existing) duration_)) m
          | None =>
              if (length ks <? MAX_INTERACTIONS)%nat
                 || match minId with
                    | None => true
                    | Some k => durationOf m k <? duration_
                    end
              then
                match truthy (Route.name (latestRoute env)),
                      Route.context (latestRoute env) with
                | Some routeName_, Some parentContext_ =>
                    let m' :=
                      match minId with
                      | Some k =>
                          if (MAX_INTERACTIONS <=? length (keys m))%nat
                          then del k m else m
                      | None => m
                      end in
                    put interactionId
                        (mkInteraction routeName_ duration_ parentContext_
                                       (envUser env) (envActiveTransaction env)
                                       (envReplayId env) startTime_) m'
                | _, _ => m
                end
              else m
          end
    end
  else m.

(** [handleEntries({ entries })] on the mapping. *)
Definition handleEntries (env : Env) (entries : list PerformanceEntry)
           (m : InteractionRouteNameMapping) : InteractionRouteNameMapping :=
  fold_left (handleEntry env) entries m.

(** A sequence of calls of the handler, each with the environment it finds. *)
Definition observeAll (calls : list (Env * list PerformanceEntry))
           (m : InteractionRouteNameMapping) : InteractionRouteNameMapping :=
  fold_left (fun acc c => handleEntries (fst c) (snd c) acc) calls m.

(** ** Idle transactions and the hub

    [IdleTransaction], [startIdleTransaction] and [getActiveTransaction]
    live in [@sentry/core]; the integration only calls them. *)

Module Reason.
Inductive t : Type :=
| idleTimeout
| finalTimeout
| heartbeatFailed
| external
| interactionInterrupted
| cancelled.
End Reason.
Definition FinishReason : Type := Reason.t.

Module Txn.
Record t : Type := mk {
  context : TransactionContext;
  idleTimeout : option Z;
  finalTimeout : option Z;
  heartbeatInterval : option Z;
  delayAutoFinish : bool;
  autoFinishSignal : bool;
  finishReason : FinishReason;      (* the reason [end()] will record *)
  ended : option FinishReason;      (* [endTime] and its reason, set together *)
  recordedDuration : Z;             (* duration seen at the previous heartbeat *)
  heartbeatMissCount : nat
}.

Definition op (x : t) : option string := Ctx.op (context x).

Definition withReason (x : t) (r : FinishReason) : t :=
  mk (context x) (idleTimeout x) (finalTimeout x) (heartbeatInterval x)
     (delayAutoFinish x) (autoFinishSignal x) r (ended x)
     (recordedDuration x) (heartbeatMissCount x).

Definition withEnded (x : t) (r : FinishReason) : t :=
  mk (context x) (idleTimeout x) (finalTimeout x) (heartbeatInterval x)
     (delayAutoFinish x) (autoFinishSignal x) (finishReason x) (Some r)
     (recordedDuration x) (heartbeatMissCount x).

Definition withSignal (x : t) : t :=
  mk (context x) (idleTimeout x) (finalTimeout x) (heartbeatInterval x)
     (delayAutoFinish x) true (finishReason x) (ended x)
     (recordedDuration x) (heartbeatMissCount x).

Definition withBeat (x : t) (d : Z) (n : nat) : t :=
  mk (context x) (idleTimeout x) (finalTimeout x) (heartbeatInterval x)
     (delayAutoFinish x) (autoFinishSignal x) (finishReason x) (ended x) d n.
End Txn.
Definition IdleTransaction : Type := Txn.t.

(** What happened to spans, oldest first. *)
Inductive Event : Type :=
| Started (id : nat)
| Finished (id : nat) (reason : FinishReason).

(** The hub: every transaction ever started (a reference is its position),
    the transaction on the scope, and the history. *)
Record Hub : Type := mkHub {
  transactions : list IdleTransaction;
  scopeTransaction : option nat;
  events : list Event
}.

Definition emptyHub : Hub := mkHub [] None [].

Definition txnAt (hub : Hub) (id : nat) : option IdleTransaction :=
  nth_error (transactions hub) id.

Fixpoint update {A : Type} (l : list A) (i : nat) (f : A -> A) : list A :=
  match l, i with
  | [], _ => []
  | x :: t, O => f x :: t
  | x :: t, S j => x :: update t j f
  end.

(** [getActiveTransaction()] *)
Definition getActiveTransaction (hub : Hub) : option (nat * IdleTransaction) :=
  match scopeTransaction hub with
  | Some id =>
      match txnAt hub id with
      | Some x => Some (id, x)
      | None => None
      end
  | None => None
  end.

(** Modelled from the spec: [startIdleTransaction] of [@sentry/core], which
    is not among the sources. It creates the span, arms its clock and, with
    [onScope], makes it the current one; the span records [external] as the
    reason it ends with unless another is set. *)
Definition startIdleTransaction (hub : Hub) (context : TransactionContext)
           (idleTimeout finalTimeout : option Z) (onScope : bool)
           (heartbeatInterval : option Z) (delayAutoFinish : bool) : Hub * nat :=
  let id := length (transactions hub) in
  let x := Txn.mk context idleTimeout finalTimeout heartbeatInterval
                  delayAutoFinish false Reason.external None 0 0 in
  (mkHub (transactions hub ++ [x])
         (if onScope then Some id else scopeTransaction hub)
         (events hub ++ [Started id]),
   id).

(** Modelled from the spec: finishing a span of [@sentry/core] sets its end
    and its reason together, once; the span stops being the current one;
    finishing a finished span does nothing. *)
Definition finishWith (id : nat) (reason : FinishReason) (hub : Hub) : Hub :=
  match txnAt hub id with
  | Some x =>
      match Txn.ended x with
      | Some _ => hub
      | None =>
          mkHub (update (transactions hub) id (fun y => Txn.withEnded y reason))
                (match scopeTransaction hub with
                 | Some cur => if Nat.eqb cur id then None else Some cur
                 | None => None
                 end)
                (events hub ++ [Finished id reason])
      end
  | None => hub
  end.

(** Modelled from the spec: [IdleTransaction.end()]. *)
Definition endTransaction (id : nat) (hub : Hub) : Hub :=
  match txnAt hub id with
  | Some x => finishWith id (Txn.finishReason x) hub
  | None => hub
  end.

(** Modelled from the spec: [IdleTransaction.setFinishReason(reason)]. *)
Definition setFinishReason (id : nat) (reason : FinishReason) (hub : Hub) : Hub :=
  mkHub (update (transactions hub) id
                (fun y => match Txn.ended y with
                          | Some _ => y
                          | None => Txn.withReason y reason
                          end))
        (scopeTransaction hub) (events hub).

(** Modelled from the spec: [IdleTransaction.sendAutoFinishSignal()]. *)
Definition sendAutoFinishSignal (id : nat) (hub : Hub) : Hub :=
  mkHub (update (transactions hub) id Txn.withSignal)
        (scopeTransaction hub) (events hub).

Definition HEARTBEAT_MISSES : nat := 3.

(** Modelled from the spec: the heartbeat of [IdleTransaction], which is not
    among the sources. On each tick the duration to date is compared with
    the one recorded at the previous tick; a change resets the miss counter
    to zero, no change adds one, and at three the span finishes with
    [heartbeatFailed]. *)
Definition heartbeatTick (id : nat) (durationToDate : Z) (hub : Hub) : Hub :=
  match txnAt hub id with
  | Some x =>
      match Txn.ended x with
      | Some _ => hub
      | None =>
          let misses :=
            if durationToDate =? Txn.recordedDuration x
            then S (Txn.heartbeatMissCount x) else O in
          let hub' :=
            mkHub (update (transactions hub) id
                          (fun y => Txn.withBeat y durationToDate misses))
                  (scopeTransaction hub) (events hub) in
          if (HEARTBEAT_MISSES <=? misses)%nat
          then finishWith id Reason.heartbeatFailed hub'
          else hub'
      end
  | None => hub
  end.

(** The reason a span finished with, if it has. *)
Definition finishReasonOf (hub : Hub) (id : nat) : option FinishReason :=
  match txnAt hub id with
  | Some x => Txn.ended x
  | None => None
  end.

Definition isLive (hub : Hub) (id : nat) : bool :=
  match txnAt hub id with
  | Some x => match Txn.ended x with Some _ => false | None => true end
  | None => false
  end.

(** The spans that are started and not finished after a history. *)
Fixpoint currentAfter (h : list Event) (cur : list nat) : list nat :=
  match h with
  | [] => cur
  | Started id :: t => currentAfter t (cur ++ [id])
  | Finished id _ :: t => currentAfter t (filter (fun j => negb (Nat.eqb j id)) cur)
  end.

(** ** Options and construction *)

(** What a [beforeStartSpan] hook does with the context object it is
    handed: the context it returns, and the state it leaves its argument
    in. A hook that changes its argument in place and returns it has the
    two equal; a hook that builds a new context leaves its argument as it
    was. *)
Record HookResult : Type := mkHookResult {
  hookReturned : TransactionContext;
  hookArgument : TransactionContext
}.

Definition Hook : Type := TransactionContext -> HookResult.

(** The options as the integration reads them: every value can be
    [undefined]. *)
Module Options.
Record t : Type := mk {
  idleTimeout : option Z;
  finalTimeout : option Z;
  heartbeatInterval : option Z;
  instrumentPageLoad : option bool;
  instrumentNavigation : option bool;
  markBackgroundSpan : option bool;
  enableLongTask : option bool;
  enableInp : option bool;
  interactionsSampleRate : option (Z * positive);  (* numerator, denominator *)
  experiments : option (option bool);  (* _experiments: undefined, or an object
                                          with its enableInteractions *)
  beforeStartSpan : option Hook
}.
End Options.
Definition BrowserTracingOptions : Type := Options.t.

(** A key of an object literal: left out, or given, possibly as
    [undefined]. *)
Inductive Key (A : Type) : Type :=
| Absent
| Given (value : option A).
Arguments Absent {A}.
Arguments Given {A} value.

(** [Partial<BrowserTracingOptions>] *)
Module PartialOptions.
Record t : Type := mk {
  idleTimeout : Key Z;
  finalTimeout : Key Z;
  heartbeatInterval : Key Z;
  instrumentPageLoad : Key bool;
  instrumentNavigation : Key bool;
  markBackgroundSpan : Key bool;
  enableLongTask : Key bool;
  enableInp : Key bool;
  interactionsSampleRate : Key (Z * positive);
  experiments : Key (option bool);
  beforeStartSpan : Key Hook
}.
Definition empty : t :=
  mk Absent Absent Absent Absent Absent Absent Absent Absent Absent Absent Absent.
End PartialOptions.

(** [TRACING_DEFAULTS] of [@sentry/core], with the values the option
    comments give. *)
Definition TRACING_DEFAULTS : Z * Z * Z := (1000, 30000, 5000).

Definition DEFAULT_BROWSER_TRACING_OPTIONS : BrowserTracingOptions :=
  let '(idle, final, beat) := TRACING_DEFAULTS in
  Options.mk (Some idle) (Some final) (Some beat) (Some true) (Some true)
             (Some true) (Some true) (Some false) (Some (1, 1%positive))
             (Some None) None.

Definition orDefault {A : Type} (given : option A) (default : A) : A :=
  match given with
  | Some x => x
  | None => default
  end.

(** One key of [{ ...defaults, ...given }]: a key that is given wins, also
    when it is given as [undefined]. *)
Definition spread {A : Type} (given : Key A) (default : option A) : option A :=
  match given with
  | Absent => default
  | Given value => value
  end.

(** [{ ...DEFAULT_BROWSER_TRACING_OPTIONS, ..._options }] *)
Definition mergeOptions (_options : PartialOptions.t) : BrowserTracingOptions :=
  let d := DEFAULT_BROWSER_TRACING_OPTIONS in
  Options.mk
    (spread (PartialOptions.idleTimeout _options) (Options.idleTimeout d))
    (spread (PartialOptions.finalTimeout _options) (Options.finalTimeout d))
    (spread (PartialOptions.heartbeatInterval _options) (Options.heartbeatInterval d))
    (spread (PartialOptions.instrumentPageLoad _options) (Options.instrumentPageLoad d))
    (spread (PartialOptions.instrumentNavigation _options)
            (Options.instrumentNavigation d))
    (spread (PartialOptions.markBackgroundSpan _options) (Options.markBackgroundSpan d))
    (spread (PartialOptions.enableLongTask _options) (Options.enableLongTask d))
    (spread (PartialOptions.enableInp _options) (Options.enableInp d))
    (spread (PartialOptions.interactionsSampleRate _options)
            (Options.interactionsSampleRate d))
    (spread (PartialOptions.experiments _options) (Options.experiments d))
    (spread (PartialOptions.beforeStartSpan _options) (Options.beforeStartSpan d)).

(** A call either returns or throws. *)
Inductive Completion (A : Type) : Type :=
| Returned (value : A)
| Thrown (message : string).
Arguments Returned {A} value.
Arguments Thrown {A} message.

(** The collaborators that construction starts. *)
Inductive Setup : Type :=
| addTracingExtensions
| startTrackingWebVitals
| startTrackingINP (interactionsSampleRate : option (Z * positive))
| startTrackingLongTasks
| startTrackingInteractions.

Definition BROWSER_TRACING_INTEGRATION_ID : string := "BrowserTracing".

Record Integration : Type := mkIntegration {
  integrationName : string;
  integrationOptions : BrowserTracingOptions;
  interactionIdToRouteNameMapping : InteractionRouteNameMapping;
  integrationLatestRoute : LatestRoute
}.

(** The truthiness of an optional boolean. *)
Definition isTrue (b : option bool) : bool :=
  match b with
  | Some true => true
  | _ => false
  end.

(** [browserTracingIntegration(_options)]: the collaborators started, in
    order, and then the integration, or the [TypeError] of reading
    [enableInteractions] of an [_experiments] that is [undefined]. (The
    trace propagation targets belong to request instrumentation and are
    left out.) *)
Definition browserTracingIntegration (_options : PartialOptions.t)
  : list Setup * Completion Integration :=
  let options := mergeOptions _options in
  let started :=
    [addTracingExtensions; startTrackingWebVitals]
    ++ (if isTrue (Options.enableInp options)
        then [startTrackingINP (Options.interactionsSampleRate options)] else [])
    ++ (if isTrue (Options.enableLongTask options)
        then [startTrackingLongTasks] else []) in
  match Options.experiments options with
  | None =>
      (started,
       Thrown "TypeError: Cannot read properties of undefined (reading 'enableInteractions')")
  | Some enableInteractions =>
      (started ++ (if isTrue enableInteractions then [startTrackingInteractions] else []),
       Returned (mkIntegration BROWSER_TRACING_INTEGRATION_ID options []
                               Route.initial))
  end.

(** ** Route transactions *)

(** What the page provides: the result of
    [propagationContextFromHeaders(getMetaContent('sentry-trace'), getMetaContent('baggage'))],
    [WINDOW.document.readyState] ([None] without a document) and
    [WINDOW.location.pathname] ([None] without a location). *)
Record Page : Type := mkPage {
  headerTraceId : string;
  headerParentSpanId : option string;
  headerSampled : option bool;
  headerDsc : option string;
  readyState : option string;
  pathname : option string
}.

(** The state the handlers of one integration share. *)
Record World : Type := mkWorld {
  hub : Hub;
  route : LatestRoute;
  activeSpan : option nat;
  inflightInteractionTransaction : option nat;
  startingUrl : option string
}.

Definition initialWorld (href : option string) : World :=
  mkWorld emptyHub Route.initial None None href.

Definition isReady (state : string) : bool :=
  String.eqb state "interactive" || String.eqb state "complete".

Definition orGiven {A : Type} (given fallback : option A) : option A :=
  match given with
  | Some x => Some x
  | None => fallback
  end.

(** [_createRouteTransaction(context)]. The name of what [beforeStartSpan]
    returns is compared with the name its argument has after the call,
    since both are the same object when the hook returns its argument. The
    auto-finish signal is sent when the document is already ready (the
    later [readystatechange] events are not part of the call). *)
Definition _createRouteTransaction (options : BrowserTracingOptions) (page : Page)
           (context : TransactionContext) (w : World) : World * nat :=
  let isPageloadTransaction :=
    match Ctx.op context with
    | Some o => String.eqb o "pageload"
    | None => false
    end in
  let expandedContext :=
    if isPageloadTransaction then
      Ctx.mk (Ctx.name context) (Ctx.op context)
             (orGiven (Ctx.traceId context) (Some (headerTraceId page)))
             (orGiven (Ctx.parentSpanId context) (headerParentSpanId page))
             (orGiven (Ctx.parentSampled context) (headerSampled page))
             (Ctx.sampled context) (Ctx.origin context)
             (Ctx.attributesSource context) (Ctx.dataSource context)
             (Ctx.metadataSource context) (headerDsc page) (Some true)
    else
      Ctx.mk (Ctx.name context) (Ctx.op context) (Ctx.traceId context)
             (Ctx.parentSpanId context) (Ctx.parentSampled context)
             (Ctx.sampled context) (Ctx.origin context)
             (Ctx.attributesSource context) (Ctx.dataSource context)
             (Ctx.metadataSource context) (Ctx.dynamicSamplingContext context)
             (orGiven (Ctx.trimEnd context) (Some true)) in
  let hooked :=
    match Options.beforeStartSpan options with
    | Some beforeStartSpan => beforeStartSpan expandedContext
    | None => mkHookResult expandedContext expandedContext
    end in
  let returnedContext := hookReturned hooked in
  let finalContext :=
    if String.eqb (Ctx.name returnedContext) (Ctx.name (hookArgument hooked))
    then returnedContext
    else
      Ctx.mk (Ctx.name returnedContext) (Ctx.op returnedContext)
             (Ctx.traceId returnedContext) (Ctx.parentSpanId returnedContext)
             (Ctx.parentSampled returnedContext) (Ctx.sampled returnedContext)
             (Ctx.origin returnedContext) (Ctx.attributesSource returnedContext)
             (Ctx.dataSource returnedContext) (Some "custom")
             (Ctx.dynamicSamplingContext returnedContext)
             (Ctx.trimEnd returnedContext) in
  let latest := Route.mk (Some (Ctx.name finalContext)) (Some finalContext) in
  let '(hub1, idleTransaction) :=
    startIdleTransaction (hub w) finalContext
                         (Options.idleTimeout options) (Options.finalTimeout options)
                         true (Options.heartbeatInterval options)
                         isPageloadTransaction in
  let hub2 :=
    match readyState page with
    | Some state =>
        if isPageloadTransaction && isReady state
        then sendAutoFinishSignal idleTransaction hub1 else hub1
    | None => hub1
    end in
  (mkWorld hub2 latest (activeSpan w) (inflightInteractionTransaction w)
           (startingUrl w),
   idleTransaction).

(** [{ op, ...context }] *)
Definition withDefaultOp (o : string) (context : TransactionContext)
  : TransactionContext :=
  Ctx.mk (Ctx.name context) (orGiven (Ctx.op context) (Some o))
         (Ctx.traceId context) (Ctx.parentSpanId context)
         (Ctx.parentSampled context) (Ctx.sampled context) (Ctx.origin context)
         (Ctx.attributesSource context) (Ctx.dataSource context)
         (Ctx.metadataSource context) (Ctx.dynamicSamplingContext context)
         (Ctx.trimEnd context).

(** The body shared by the two [client.on] handlers. *)
Definition startRouteSpan (o : string) (options : BrowserTracingOptions)
           (page : Page) (context : TransactionContext) (w : World) : World :=
  let w1 :=
    match activeSpan w with
    | Some span =>
        mkWorld (endTransaction span (hub w)) (route w) (activeSpan w)
                (inflightInteractionTransaction w) (startingUrl w)
    | None => w
    end in
  let '(w2, created) := _createRouteTransaction options page (withDefaultOp o context) w1 in
  mkWorld (hub w2) (route w2) (Some created)
          (inflightInteractionTransaction w2) (startingUrl w2).

(** [client.on('startNavigationSpan', context => ...)] *)
Definition startNavigationSpan := startRouteSpan "navigation".

(** [client.on('startPageLoadSpan', context => ...)] *)
Definition startPageLoadSpan := startRouteSpan "pageload".

(** The click listener [registerInteractionTransaction]. *)
Definition registerInteractionTransaction (options : BrowserTracingOptions)
           (w : World) : World :=
  let op_ := "ui.action.click" in
  let currentTransaction := getActiveTransaction (hub w) in
  let blocked :=
    match currentTransaction with
    | Some (_, x) =>
        match truthy (Txn.op x) with
        | Some o => String.eqb o "navigation" || String.eqb o "pageload"
        | None => false
        end
    | None => false
    end in
  if blocked then w
  else
    let w1 :=
      match inflightInteractionTransaction w with
      | Some inflight =>
          mkWorld (endTransaction inflight
                     (setFinishReason inflight Reason.interactionInterrupted (hub w)))
                  (route w) (activeSpan w) None (startingUrl w)
      | None => w
      end in
    match truthy (Route.name (route w1)) with
    | None => w1
    | Some routeName_ =>
        let context :=
          Ctx.mk routeName_ (Some op_) None None None None None None
                 (match Route.context (route w1) with
                  | Some c => getSource c
                  | None => Some "url"
                  end)
                 None None (Some true) in
        let '(hub1, created) :=
          startIdleTransaction (hub w1) context
                               (Options.idleTimeout options)
                               (Options.finalTimeout options)
                               true (Options.heartbeatInterval options) false in
        mkWorld hub1 (route w1) (activeSpan w1) (Some created) (startingUrl w1)
    end.

(** [startBrowserTracingPageLoadSpan] / [startBrowserTracingNavigationSpan]
    with a client that emits: the event reaches the handler above. *)
Definition startBrowserTracingPageLoadSpan := startPageLoadSpan.
Definition startBrowserTracingNavigationSpan := startNavigationSpan.

Definition urlContext (name_ origin_ : string) : TransactionContext :=
  Ctx.mk name_ None None None None None (Some origin_) (Some "url")
         None None None None.

(** The part of [afterAllSetup] that starts the page load span. *)
Definition afterAllSetup (options : BrowserTracingOptions) (page : Page)
           (w : World) : World :=
  match pathname page with
  | Some path =>
      if isTrue (Options.instrumentPageLoad options)
      then startBrowserTracingPageLoadSpan options page
             (urlContext path "auto.pageload.browser") w
      else w
  | None => w
  end.

Definition withStartingUrl (w : World) (u : option string) : World :=
  mkWorld (hub w) (route w) (activeSpan w) (inflightInteractionTransaction w) u.

(** The history handler [({ to, from }) => ...], installed when
    [instrumentNavigation] is set and the window has a location. *)
Definition onHistoryChange (options : BrowserTracingOptions) (page : Page)
           (to : string) (from : option string) (w : World) : World :=
  match pathname page with
  | Some path =>
      if isTrue (Options.instrumentNavigation options) then
        let skip :=
          match from, truthy (startingUrl w) with
          | None, Some url =>
              match String.index 0 to url with
              | Some _ => true
              | None => false
              end
          | _, _ => false
          end in
        if skip then withStartingUrl w None
        else
          let same :=
            match from with
            | Some f => String.eqb f to
            | None => false
            end in
          if same then w
          else startBrowserTracingNavigationSpan options page
                 (urlContext path "auto.navigation.browser")
                 (withStartingUrl w None)
      else w
  | None => w
  end.

(** What reaches a tracker: the two start events, and the clock of the span
    it holds (a timeout or another finish, and the heartbeat). *)
Inductive Signal : Type :=
| NavigationSpan (context : TransactionContext)
| PageLoadSpan (context : TransactionContext)
| ClockFinish (reason : FinishReason)
| Heartbeat (durationToDate : Z).

Definition onHub (f : Hub -> Hub) (w : World) : World :=
  mkWorld (f (hub w)) (route w) (activeSpan w)
          (inflightInteractionTransaction w) (startingUrl w).

Definition signal (options : BrowserTracingOptions) (page : Page)
           (w : World) (s : Signal) : World :=
  match s with
  | NavigationSpan context => startNavigationSpan options page context w
  | PageLoadSpan context => startPageLoadSpan options page context w
  | ClockFinish reason =>
      match activeSpan w with
      | Some span => onHub (finishWith span reason) w
      | None => w
      end
  | Heartbeat d =>
      match activeSpan w with
      | Some span => onHub (heartbeatTick span d) w
      | None => w
      end
  end.

Definition signals (options : BrowserTracingOptions) (page : Page)
           (l : list Signal) (w : World) : World :=
  fold_left (signal options page) l w.

(** The environment [handleEntries] finds in a world. *)
Definition envOf (w : World) (replayId_ user_ : option string) : Env :=
  mkEnv (route w) replayId_
        (match getActiveTransaction (hub w) with
         | Some (id, _) => Some id
         | None => None
         end)
        user_.

(** ** Inputs used in the closed statements *)

Definition homeContext : TransactionContext :=
  Ctx.mk "/home" (Some "pageload") None None None None None (Some "url")
         None None None (Some true).

Definition homeEnv : Env :=
  mkEnv (Route.mk (Some "/home") (Some homeContext)) None None None.

Definition noRouteEnv : Env := mkEnv Route.initial None None None.

Definition eventEntry (id d s : Z) : PerformanceEntry :=
  Entry.mk "event" (Some id) d s.

Definition firstInputEntry (id d s : Z) : PerformanceEntry :=
  Entry.mk "first-input" (Some id) d s.

(** The projection of a cache on (interaction id, duration). *)
Definition durations (m : InteractionRouteNameMapping) : list (Z * Z) :=
  map (fun kr => (fst kr, duration (snd kr))) m.

(** An entry is attributable when the route cell holds a name and a context. *)
Definition routeOf (env : Env) : option (string * TransactionContext) :=
  match truthy (Route.name (latestRoute env)), Route.context (latestRoute env) with
  | Some n, Some c => Some (n, c)
  | _, _ => None
  end.

(** A [first-input] entry that repeats the duration and start time of a
    stored record. *)
Definition isDuplicateFirstInput (m : InteractionRouteNameMapping)
           (entry : PerformanceEntry) : bool :=
  String.eqb (Entry.entryType entry) "first-input"
  && matchingEntry m (Entry.duration entry) (Entry.startTime entry).

(** The record [handleEntries] stores for a new entry. *)
Definition recordOf (env : Env) (n : string) (c : TransactionContext)
           (entry : PerformanceEntry) : InteractionRecord :=
  mkInteraction n (Entry.duration entry) c (envUser env)
                (envActiveTransaction env) (envReplayId env)
                (Entry.startTime entry).

(** Two interactions stored under the home route. *)
Definition twoInteractions : InteractionRouteNameMapping :=
  handleEntries homeEnv [eventEntry 1 50 0; eventEntry 2 80 7] [].

(** Ten interactions with ids and durations 1 .. 10, all starting at 0. *)
Definition tenInteractions : InteractionRouteNameMapping :=
  handleEntries homeEnv
    (map (fun i => eventEntry i i 0) [1; 2; 3; 4; 5; 6; 7; 8; 9; 10]) [].

(** Pairs (interaction id, duration) in which every pair has a shorter
    duration than, and another id than, the pairs after it. *)
Fixpoint increasing (l : list (Z * Z)) : Prop :=
  match l with
  | [] => True
  | p :: t => (forall q, In q t -> snd p < snd q /\ fst p <> fst q) /\ increasing t
  end.

(** The pairs kept when a pair longer than all of [L] arrives. *)
Definition window (L : list (Z * Z)) (p : Z * Z) : list (Z * Z) :=
  if (length L <? MAX_INTERACTIONS)%nat then L ++ [p] else tl L ++ [p].

Definition describes (e : PerformanceEntry) (p : Z * Z) : Prop :=
  Entry.interactionId e = Some (fst p) /\ Entry.duration e = snd p.

(** ** Predicates used in the statements *)

(** The four things the handler can do to the mapping. *)
Inductive Outcome (env : Env) (m : InteractionRouteNameMapping)
          (entry : PerformanceEntry) : InteractionRouteNameMapping -> Prop :=
| Dropped : Outcome env m entry m
| Merged i existing :
    Entry.interactionId entry = Some i -> i <> 0 ->
    get i m = Some existing ->
    Outcome env m entry
            (put i (withDuration existing
                      (Z.max (duration existing) (Entry.duration entry))) m)
| Added i n c :
    Entry.interactionId entry = Some i -> i <> 0 ->
    get i m = None -> routeOf env = Some (n, c) ->
    (length m < MAX_INTERACTIONS)%nat ->
    Outcome env m entry (put i (recordOf env n c entry) m)
| Evicted i n c k :
    Entry.interactionId entry = Some i -> i <> 0 ->
    get i m = None -> routeOf env = Some (n, c) ->
    (MAX_INTERACTIONS <= length m)%nat ->
    minInteractionId m = Some k ->
    durationOf m k < Entry.duration entry ->
    Outcome env m entry (put i (recordOf env n c entry) (del k m)).

(** The mapping keeps one record per key and none under the sentinel. *)
Definition wellFormed (m : InteractionRouteNameMapping) : Prop :=
  NoDup (keys m) /\ ~ In 0 (keys m) /\ (length m <= MAX_INTERACTIONS)%nat.

(** A change of a transaction that keeps its end and its reason. *)
Definition neutral (f : IdleTransaction -> IdleTransaction) : Prop :=
  forall x, Txn.ended (f x) = Txn.ended x /\ Txn.finishReason (f x) = Txn.finishReason x.

(** The span the tracker holds, if it is not finished. *)
Definition activeLive (w : World) : list nat :=
  match activeSpan w with
  | Some s => if isLive (hub w) s then [s] else []
  | None => []
  end.

Definition homePage : Page :=
  mkPage "4bf92f3577b34da6a3ce929d0e0e4736" None None None (Some "loading")
         (Some "/home").

Definition aboutContext : TransactionContext :=
  Ctx.mk "/about" None None None None None None (Some "url") None None None None.

(** One tick, on the transaction itself. *)
Definition beat (d : Z) (x : IdleTransaction) : IdleTransaction :=
  match Txn.ended x with
  | Some _ => x
  | None =>
      let misses :=
        if d =? Txn.recordedDuration x then S (Txn.heartbeatMissCount x) else O in
      if (HEARTBEAT_MISSES <=? misses)%nat
      then Txn.withEnded (Txn.withBeat x d misses) Reason.heartbeatFailed
      else Txn.withBeat x d misses
  end.

Definition nonPositiveTimeouts : PartialOptions.t :=
  PartialOptions.mk (Given (Some 0)) (Given (Some (-1))) (Given (Some 0))
                    Absent Absent Absent Absent Absent Absent Absent Absent.

(** ** The handlers of one integration together *)

(** The guard of the click listener: the transaction on the scope has op
    [navigation] or [pageload]. *)
Definition routeTransactionInProgress (h : Hub) : bool :=
  match getActiveTransaction h with
  | Some (_, x) =>
      match truthy (Txn.op x) with
      | Some o => String.eqb o "navigation" || String.eqb o "pageload"
      | None => false
      end
  | None => false
  end.

(** The context [_createRouteTransaction] hands to [beforeStartSpan]. *)
Definition expandContext (page : Page) (context : TransactionContext)
  : TransactionContext :=
  if match Ctx.op context with
     | Some o => String.eqb o "pageload"
     | None => false
     end
  then
    Ctx.mk (Ctx.name context) (Ctx.op context)
           (orGiven (Ctx.traceId context) (Some (headerTraceId page)))
           (orGiven (Ctx.parentSpanId context) (headerParentSpanId page))
           (orGiven (Ctx.parentSampled context) (headerSampled page))
           (Ctx.sampled context) (Ctx.origin context)
           (Ctx.attributesSource context) (Ctx.dataSource context)
           (Ctx.metadataSource context) (headerDsc page) (Some true)
  else
    Ctx.mk (Ctx.name context) (Ctx.op context) (Ctx.traceId context)
           (Ctx.parentSpanId context) (Ctx.parentSampled context)
           (Ctx.sampled context) (Ctx.origin context)
           (Ctx.attributesSource context) (Ctx.dataSource context)
           (Ctx.metadataSource context) (Ctx.dynamicSamplingContext context)
           (orGiven (Ctx.trimEnd context) (Some true)).

(** Everything that reaches the integration after construction: the
    signals of the tracker, a click, a history change and the set-up.
    [Clicked] is one run of the click listener, which the set-up registers
    when [_experiments.enableInteractions] is set. *)
Inductive Action : Type :=
| Emit (s : Signal)
| Clicked
| HistoryChanged (to : string) (from : option string)
| SetupDone.

Definition act (options : BrowserTracingOptions) (page : Page)
           (w : World) (a : Action) : World :=
  match a with
  | Emit s => signal options page w s
  | Clicked => registerInteractionTransaction options w
  | HistoryChanged to from => onHistoryChange options page to from w
  | SetupDone => afterAllSetup options page w
  end.

Definition run (options : BrowserTracingOptions) (page : Page)
           (l : list Action) (w : World) : World :=
  fold_left (act options page) l w.

(** The route cell is empty, or holds a context together with its name. *)
Definition inSync (r : LatestRoute) : Prop :=
  r = Route.initial \/ exists c, r = Route.mk (Some (Ctx.name c)) (Some c).

(** Spans are referred to by positions below the number of transactions,
    and the span of the tracker is not the click transaction in flight. *)
Definition separate (w : World) : Prop :=
  (forall s, activeSpan w = Some s -> (s < length (transactions (hub w)))%nat)
  /\ (forall i, inflightInteractionTransaction w = Some i ->
                (i < length (transactions (hub w)))%nat)
  /\ (forall s i, activeSpan w = Some s ->
                  inflightInteractionTransaction w = Some i -> s <> i).

Definition renameTo (n : string) (c : TransactionContext) : TransactionContext :=
  Ctx.mk n (Ctx.op c) (Ctx.traceId c) (Ctx.parentSpanId c) (Ctx.parentSampled c)
         (Ctx.sampled c) (Ctx.origin c) (Ctx.attributesSource c)
         (Ctx.dataSource c) (Ctx.metadataSource c)
         (Ctx.dynamicSamplingContext c) (Ctx.trimEnd c).

(** A hook that builds a renamed context and leaves its argument alone,
    and one that renames its argument in place and returns it. *)
Definition renamingHook (n : string) : Hook :=
  fun c => mkHookResult (renameTo n c) c.

Definition renamingInPlaceHook (n : string) : Hook :=
  fun c => mkHookResult (renameTo n c) (renameTo n c).

Definition renamingOptions : BrowserTracingOptions :=
  Options.mk (Some 1000) (Some 30000) (Some 5000) (Some true) (Some true)
             (Some true) (Some true) (Some false) (Some (1, 1%positive))
             (Some None) (Some (renamingHook "/users/:id")).

Definition readyPage : Page :=
  mkPage "4bf92f3577b34da6a3ce929d0e0e4736" (Some "00f067aa0ba902b7") (Some true)
         (Some "sentry-release=1.0") (Some "complete") (Some "/home").

(** [context.op === 'pageload'] *)
Definition isPageload (context : TransactionContext) : bool :=
  match Ctx.op context with
  | Some o => String.eqb o "pageload"
  | None => false
  end.

(** [{ ...metadata, source: 'custom' }] on the context. *)
Definition withCustomSource (c : TransactionContext) : TransactionContext :=
  Ctx.mk (Ctx.name c) (Ctx.op c) (Ctx.traceId c) (Ctx.parentSpanId c)
         (Ctx.parentSampled c) (Ctx.sampled c) (Ctx.origin c)
         (Ctx.attributesSource c) (Ctx.dataSource c) (Some "custom")
         (Ctx.dynamicSamplingContext c) (Ctx.trimEnd c).

(** The context [_createRouteTransaction] ends with. *)
Definition finalContextOf (options : BrowserTracingOptions) (page : Page)
           (context : TransactionContext) : TransactionContext :=
  let expanded := expandContext page context in
  let hooked :=
    match Options.beforeStartSpan options with
    | Some f => f expanded
    | None => mkHookResult expanded expanded
    end in
  if String.eqb (Ctx.name (hookReturned hooked)) (Ctx.name (hookArgument hooked))
  then hookReturned hooked else withCustomSource (hookReturned hooked).

(** ** The spans of the tracker in a history *)

(** The span an event is about. *)
Definition eventSpan (e : Event) : nat :=
  match e with
  | Started id => id
  | Finished id _ => id
  end.

(** The events of a history that are about the given spans. *)
Definition ofSpans (ids : list nat) (h : list Event) : list Event :=
  filter (fun e => existsb (Nat.eqb (eventSpan e)) ids) h.

(** The spans an action makes the tracker start: the transactions the
    action adds to the hub, unless it is a click (a click transaction is
    the listener's). *)
Definition startedByTracker (options : BrowserTracingOptions) (page : Page)
           (w : World) (a : Action) : list nat :=
  match a with
  | Clicked => []
  | _ =>
      seq (length (transactions (hub w)))
          (length (transactions (hub (act options page w a)))
           - length (transactions (hub w)))
  end.

(** The spans the tracker starts along a run. *)
Fixpoint routeSpans (options : BrowserTracingOptions) (page : Page)
         (l : list Action) (w : World) : list nat :=
  match l with
  | [] => []
  | a :: t =>
      startedByTracker options page w a
      ++ routeSpans options page t (act options page w a)
  end.

(** What the clock of span [s] can do to the hub: keep the history and
    what is live, or end [s], which was live. The pending reasons and the
    number of transactions stay. *)
Definition endsOrKeeps (s : nat) (h h' : Hub) : Prop :=
  length (transactions h') = length (transactions h)
  /\ (forall j x', txnAt h' j = Some x' ->
                   exists x, txnAt h j = Some x
                             /\ Txn.finishReason x' = Txn.finishReason x)
  /\ ((events h' = events h /\ forall j, isLive h' j = isLive h j)
      \/ (exists r,
             isLive h s = true
             /\ events h' = events h ++ [Finished s r]
             /\ forall j, isLive h' j = isLive h j && negb (Nat.eqb j s))).

(** What holds of a world and the spans [R] the tracker has started. *)
Record Tracked (w : World) (R : list nat) : Prop := mkTracked {
  tr_bound : forall j, In j R -> (j < length (transactions (hub w)))%nat;
  tr_inflight : forall i, inflightInteractionTransaction w = Some i -> ~ In i R;
  tr_inflight_bound :
    forall i, inflightInteractionTransaction w = Some i ->
              (i < length (transactions (hub w)))%nat;
  tr_active : forall s, activeSpan w = Some s -> In s R;
  tr_live : forall j, In j R -> isLive (hub w) j = true -> activeSpan w = Some j;
  tr_reasons :
    forall j x, In j R -> txnAt (hub w) j = Some x ->
                Txn.finishReason x = Reason.external;
  tr_events :
    forall e, In e (events (hub w)) ->
              (eventSpan e < length (transactions (hub w)))%nat;
  tr_current : currentAfter (ofSpans R (events (hub w))) [] = activeLive w;
  tr_one :
    forall n, (length (currentAfter (ofSpans R (firstn n (events (hub w)))) [])
               <= 1)%nat
}.

(** The options of [browserTracingIntegration({ _experiments:
    { enableInteractions: true } })]. *)
Definition interactionOptions : BrowserTracingOptions :=
  mergeOptions
    (PartialOptions.mk Absent Absent Absent Absent Absent Absent Absent Absent
                       Absent (Given (Some (Some true))) Absent).

(** The set-up, a navigation whose span ends by its clock, then a click. *)
Definition clickedRun : list Action :=
  [SetupDone; Emit (NavigationSpan aboutContext);
   Emit (ClockFinish Reason.idleTimeout); Clicked].

Definition teamContext : TransactionContext :=
  Ctx.mk "/team" None None None None None None (Some "url") None None None None.

Definition customContext : TransactionContext :=
  Ctx.mk "/report" (Some "custom") None None None None None (Some "url")
         None None None None.

(** * Properties of the mapping operations *)

Lemma get_In k m r : get k m = Some r -> In (k, r) m.
Proof.
  induction m as [|[k' r'] t IH]; simpl; [discriminate|].
  destruct (Z.eqb_spec k k') as [->|Hne]; intros H.
  - injection H as ->. now left.
  - right. now apply IH.
Qed.

Lemma get_None_keys k m : get k m = None <-> ~ In k (keys m).
Proof.
  induction m as [|[k' r'] t IH]; simpl.
  - tauto.
  - destruct (Z.eqb_spec k k') as [->|Hne].
    + split; [discriminate|]. intros H. exfalso. apply H. now left.
    + rewrite IH. split; intros H; [intros [E|E]; [congruence|tauto]|tauto].
Qed.

Lemma keys_get k m : In k (keys m) -> exists r, get k m = Some r.
Proof.
  intros H. destruct (get k m) as [r|] eqn:E; [now exists r|].
  apply get_None_keys in E. contradiction.
Qed.

Lemma get_keys k m r : get k m = Some r -> In k (keys m).
Proof.
  intros H. apply get_In in H. unfold keys.
  change k with (fst (k, r)). now apply in_map.
Qed.

Lemma In_get k r m : NoDup (keys m) -> In (k, r) m -> get k m = Some r.
Proof.
  induction m as [|[k' r'] t IH]; simpl; [tauto|].
  intros Hnd [E|E].
  - injection E as -> ->. now rewrite Z.eqb_refl.
  - inversion Hnd as [|? ? Hnot Hnd']; subst.
    destruct (Z.eqb_spec k k') as [->|Hne]; [|now apply IH].
    exfalso. apply Hnot. change k' with (fst (k', r)). now apply in_map.
Qed.

Lemma keys_del k m : keys (del k m) = filter (fun j => negb (k =? j)) (keys m).
Proof.
  induction m as [|[k' r'] t IH]; simpl; [reflexivity|].
  destruct (k =? k'); simpl; now rewrite IH.
Qed.

Lemma get_del_same k m : get k (del k m) = None.
Proof.
  apply get_None_keys. rewrite keys_del, filter_In.
  intros [_ H]. now rewrite Z.eqb_refl in H.
Qed.

Lemma get_del_other k j m : j <> k -> get j (del k m) = get j m.
Proof.
  intros Hne. induction m as [|[k' r'] t IH]; simpl; [reflexivity|].
  destruct (Z.eqb_spec k k') as [->|Hk]; simpl.
  - destruct (Z.eqb_spec j k'); [contradiction|assumption].
  - destruct (j =? k'); [reflexivity|assumption].
Qed.

Lemma length_del_le k m : (length (del k m) <= length m)%nat.
Proof.
  induction m as [|[k' r'] t IH]; simpl; [lia|].
  destruct (k =? k'); simpl; lia.
Qed.

Lemma length_del_lt k m : In k (keys m) -> (length (del k m) < length m)%nat.
Proof.
  induction m as [|[k' r'] t IH]; simpl; [tauto|].
  intros [E|E].
  - subst. rewrite Z.eqb_refl. pose proof (length_del_le k t). lia.
  - specialize (IH E). destruct (k =? k'); simpl; lia.
Qed.

Lemma NoDup_del k m : NoDup (keys m) -> NoDup (keys (del k m)).
Proof. intros H. rewrite keys_del. now apply NoDup_filter. Qed.

Lemma del_Permutation k r m :
  NoDup (keys m) -> get k m = Some r -> Permutation m ((k, r) :: del k m).
Proof.
  induction m as [|[k' r'] t IH]; simpl; [discriminate|].
  intros Hnd H. inversion Hnd as [|? ? Hnot Hnd']; subst.
  destruct (Z.eqb_spec k k') as [->|Hne].
  - injection H as ->.
    assert (E : del k' t = t).
    { clear -Hnot. induction t as [|[j rj] t IH]; simpl; [reflexivity|].
      simpl in Hnot. destruct (Z.eqb_spec k' j) as [->|Hj]; [tauto|].
      f_equal. apply IH. tauto. }
    now rewrite E.
  - etransitivity; [apply perm_skip, IH; assumption|apply perm_swap].
Qed.

Lemma keys_replace k v m : keys (replace k v m) = keys m.
Proof.
  induction m as [|[k' r'] t IH]; simpl; [reflexivity|].
  destruct (Z.eqb_spec k k') as [->|Hne]; simpl; [reflexivity|now rewrite IH].
Qed.

Lemma get_replace_same k v m r : get k m = Some r -> get k (replace k v m) = Some v.
Proof.
  induction m as [|[k' r'] t IH]; simpl; [discriminate|].
  destruct (Z.eqb_spec k k') as [->|Hne]; simpl.
  - now rewrite Z.eqb_refl.
  - destruct (Z.eqb_spec k k'); [contradiction|assumption].
Qed.

Lemma get_replace_other k j v m : j <> k -> get j (replace k v m) = get j m.
Proof.
  intros Hne. induction m as [|[k' r'] t IH]; simpl; [reflexivity|].
  destruct (Z.eqb_spec k k') as [->|Hk]; simpl.
  - destruct (Z.eqb_spec j k'); [contradiction|reflexivity].
  - destruct (j =? k'); [reflexivity|assumption].
Qed.

Lemma insertIndex_Permutation k v m : Permutation (insertIndex k v m) ((k, v) :: m).
Proof.
  induction m as [|[k' r'] t IH]; simpl; [reflexivity|].
  destruct (isArrayIndex k' && (k' <? k)); [|reflexivity].
  etransitivity; [apply perm_skip, IH|apply perm_swap].
Qed.

Lemma put_new_Permutation k v m :
  get k m = None -> Permutation (put k v m) ((k, v) :: m).
Proof.
  intros H. unfold put. rewrite H. destruct (isArrayIndex k).
  - apply insertIndex_Permutation.
  - rewrite Permutation_app_comm. reflexivity.
Qed.

Lemma keys_Permutation m m' : Permutation m m' -> Permutation (keys m) (keys m').
Proof. apply Permutation_map. Qed.

Lemma get_Permutation k m m' :
  NoDup (keys m) -> Permutation m m' -> get k m' = get k m.
Proof.
  intros Hnd Hp.
  assert (Hnd' : NoDup (keys m')).
  { eapply Permutation_NoDup; [apply keys_Permutation; eassumption|assumption]. }
  destruct (get k m) as [r|] eqn:E.
  - apply In_get; [assumption|]. eapply Permutation_in; [eassumption|].
    now apply get_In.
  - apply get_None_keys. apply get_None_keys in E. intros Hin. apply E.
    eapply Permutation_in; [apply Permutation_sym, keys_Permutation; eassumption|assumption].
Qed.

Lemma NoDup_put k v m : NoDup (keys m) -> NoDup (keys (put k v m)).
Proof.
  intros Hnd. destruct (get k m) as [r|] eqn:E.
  - unfold put. rewrite E. now rewrite keys_replace.
  - eapply Permutation_NoDup.
    + apply Permutation_sym, keys_Permutation, put_new_Permutation. exact E.
    + simpl. constructor; [now apply get_None_keys|assumption].
Qed.

Lemma get_put_same k v m : get k (put k v m) = Some v.
Proof.
  destruct (get k m) as [r|] eqn:E.
  - unfold put. rewrite E. eapply get_replace_same; eassumption.
  - assert (Hin : In k (keys (put k v m))).
    { eapply Permutation_in.
      - apply Permutation_sym, keys_Permutation, put_new_Permutation. exact E.
      - now left. }
    clear E. unfold put in *. destruct (get k m) as [r|] eqn:E.
    + eapply get_replace_same; eassumption.
    + destruct (isArrayIndex k).
      * clear Hin E. induction m as [|[k' r'] t IH]; simpl.
        -- now rewrite Z.eqb_refl.
        -- destruct (isArrayIndex k' && (k' <? k)) eqn:B; simpl.
           ++ apply andb_prop in B as [_ B]. apply Z.ltb_lt in B.
              destruct (Z.eqb_spec k k'); [lia|assumption].
           ++ now rewrite Z.eqb_refl.
      * clear Hin. induction m as [|[k' r'] t IH]; simpl.
        -- now rewrite Z.eqb_refl.
        -- simpl in E. destruct (k =? k'); [discriminate|now apply IH].
Qed.

Lemma get_put_other k j v m : j <> k -> get j (put k v m) = get j m.
Proof.
  intros Hne. unfold put. destruct (get k m) as [r|] eqn:E.
  - now apply get_replace_other.
  - destruct (isArrayIndex k).
    + clear E. induction m as [|[k' r'] t IH]; simpl.
      * destruct (Z.eqb_spec j k); [contradiction|reflexivity].
      * destruct (isArrayIndex k' && (k' <? k)); simpl.
        -- destruct (j =? k'); [reflexivity|assumption].
        -- destruct (Z.eqb_spec j k); [contradiction|reflexivity].
    + clear E. induction m as [|[k' r'] t IH]; simpl.
      * destruct (Z.eqb_spec j k); [contradiction|reflexivity].
      * destruct (j =? k'); [reflexivity|assumption].
Qed.

Lemma length_replace k v m : length (replace k v m) = length m.
Proof.
  rewrite <- (length_map fst (replace k v m)), <- (length_map fst m).
  change (length (keys (replace k v m)) = length (keys m)).
  now rewrite keys_replace.
Qed.

Lemma length_put_le k v m : (length (put k v m) <= S (length m))%nat.
Proof.
  destruct (get k m) as [r|] eqn:E.
  - unfold put. rewrite E, length_replace. lia.
  - rewrite (Permutation_length (put_new_Permutation k v m E)). simpl. lia.
Qed.

Lemma length_put_new k v m : get k m = None -> length (put k v m) = S (length m).
Proof.
  intros E. now rewrite (Permutation_length (put_new_Permutation k v m E)).
Qed.

Lemma length_keys m : length (keys m) = length m.
Proof. apply length_map. Qed.

(** * The handler on one entry *)

Lemma reduce_min (dur : Z -> Z) ks k :
  let r := fold_left (fun a b => if dur a <? dur b then a else b) ks k in
  In r (k :: ks) /\ forall j, In j (k :: ks) -> dur r <= dur j.
Proof.
  revert k. induction ks as [|b ks IH]; intros k; simpl.
  - split; [now left|]. intros j [<-|[]]. lia.
  - destruct (IH (if dur k <? dur b then k else b)) as [Hin Hmin].
    split.
    + destruct Hin as [E|E]; [|now right; right].
      rewrite <- E. destruct (dur k <? dur b); [now left|now right; left].
    + intros j Hj.
      assert (Hc : dur (if dur k <? dur b then k else b) <= dur k
                   /\ dur (if dur k <? dur b then k else b) <= dur b).
      { destruct (Z.ltb_spec (dur k) (dur b)); lia. }
      pose proof (Hmin _ (or_introl eq_refl)) as H0.
      destruct Hj as [<-|[<-|Hj]]; [lia|lia|].
      apply Hmin. now right.
Qed.

Lemma minInteractionId_keys m k : minInteractionId m = Some k -> In k (keys m).
Proof.
  unfold minInteractionId. destruct (keys m) as [|k0 ks] eqn:E; [discriminate|].
  intros H. injection H as <-. apply (reduce_min (durationOf m) ks k0).
Qed.

Lemma minInteractionId_least m k j :
  minInteractionId m = Some k -> In j (keys m) -> durationOf m k <= durationOf m j.
Proof.
  unfold minInteractionId. destruct (keys m) as [|k0 ks] eqn:E; [discriminate|].
  intros H. injection H as <-. apply (reduce_min (durationOf m) ks k0).
Qed.

Lemma minInteractionId_None m : minInteractionId m = None -> m = [].
Proof.
  unfold minInteractionId, keys. destruct m; [reflexivity|discriminate].
Qed.

Lemma minInteractionId_some m :
  m <> [] -> exists k, minInteractionId m = Some k.
Proof.
  destruct (minInteractionId m) as [k|] eqn:E; [now exists k|].
  intros H. now apply minInteractionId_None in E.
Qed.

Lemma handleEntry_outcome env m entry : Outcome env m entry (handleEntry env m entry).
Proof.
  unfold handleEntry, isPerformanceEventTiming. cbv zeta.
  destruct (Entry.interactionId entry) as [i|] eqn:Ei; [|constructor].
  destruct (_ && _); [constructor|].
  destruct (Z.eqb_spec i 0) as [->|Hi]; [constructor|].
  destruct (get i m) as [existing|] eqn:Eg.
  - eapply Merged; eauto.
  - rewrite !length_keys.
    destruct (_ || _) eqn:Ec; [|constructor].
    unfold routeOf.
    destruct (truthy (Route.name (latestRoute env))) as [n|] eqn:En; [|constructor].
    destruct (Route.context (latestRoute env)) as [c|] eqn:Ecx; [|constructor].
    assert (Hr : routeOf env = Some (n, c)) by (unfold routeOf; now rewrite En, Ecx).
    destruct (minInteractionId m) as [k|] eqn:Em.
    + destruct (Nat.leb_spec MAX_INTERACTIONS (length m)) as [Hle|Hlt].
      * apply orb_prop in Ec as [Ec|Ec].
        -- apply Nat.ltb_lt in Ec. lia.
        -- apply Z.ltb_lt in Ec. eapply Evicted; eauto.
      * eapply Added; eauto.
    + apply minInteractionId_None in Em. subst m.
      eapply Added; eauto. unfold MAX_INTERACTIONS. simpl. lia.
Qed.

Lemma keys_put_in j k v m : In j (keys (put k v m)) -> j = k \/ In j (keys m).
Proof.
  intros H. destruct (Z.eq_dec j k) as [->|Hne]; [now left|right].
  destruct (keys_get _ _ H) as [r Hr]. rewrite get_put_other in Hr by assumption.
  eapply get_keys; eassumption.
Qed.

Lemma keys_del_in j k m : In j (keys (del k m)) -> In j (keys m).
Proof. rewrite keys_del, filter_In. tauto. Qed.

Lemma handleEntry_wellFormed env m entry :
  wellFormed m -> wellFormed (handleEntry env m entry).
Proof.
  intros (Hnd & H0 & Hlen).
  destruct (handleEntry_outcome env m entry)
    as [|i existing Ei Hi Hg|i n c Ei Hi Hg Hr Hl|i n c k Ei Hi Hg Hr Hl Hm Hd].
  - now repeat split.
  - repeat split.
    + now apply NoDup_put.
    + intros H. apply keys_put_in in H as [H|H]; [congruence|contradiction].
    + unfold put. rewrite Hg, length_replace. assumption.
  - repeat split.
    + now apply NoDup_put.
    + intros H. apply keys_put_in in H as [H|H]; [congruence|contradiction].
    + rewrite length_put_new by assumption. lia.
  - repeat split.
    + now apply NoDup_put, NoDup_del.
    + intros H. apply keys_put_in in H as [H|H]; [congruence|].
      apply keys_del_in in H. contradiction.
    + pose proof (length_put_le i (recordOf env n c entry) (del k m)).
      pose proof (length_del_lt k m (minInteractionId_keys _ _ Hm)). lia.
Qed.

Lemma handleEntries_wellFormed env entries m :
  wellFormed m -> wellFormed (handleEntries env entries m).
Proof.
  unfold handleEntries. revert m.
  induction entries as [|e t IH]; intros m H; simpl; [assumption|].
  apply IH. now apply handleEntry_wellFormed.
Qed.

Lemma observeAll_wellFormed calls m :
  wellFormed m -> wellFormed (observeAll calls m).
Proof.
  unfold observeAll. revert m.
  induction calls as [|c t IH]; intros m H; simpl; [assumption|].
  apply IH. now apply handleEntries_wellFormed.
Qed.

Lemma wellFormed_empty : wellFormed [].
Proof.
  repeat split; simpl; [constructor|tauto|unfold MAX_INTERACTIONS; lia].
Qed.

Lemma wellFormed_reachable calls : wellFormed (observeAll calls []).
Proof. apply observeAll_wellFormed, wellFormed_empty. Qed.

(** C1. Across every sequence of calls of the handler, starting from the
    empty mapping, the mapping holds at most [MAX_INTERACTIONS] = 10 records
    after each call: the bound holds after every prefix of the sequence. *)
Theorem cache_holds_at_most_MAX_INTERACTIONS :
  forall (calls : list (Env * list PerformanceEntry)) (n : nat),
    (length (observeAll (firstn n calls) []) <= 10)%nat.
Proof.
  intros calls n. apply (wellFormed_reachable (firstn n calls)).
Qed.

Lemma matchingEntry_true m k r d s :
  get k m = Some r -> duration r = d -> startTime r = s ->
  matchingEntry m d s = true.
Proof.
  intros Hg Hd Hs. unfold matchingEntry. apply existsb_exists.
  exists k. split; [eapply get_keys; eassumption|].
  rewrite Hg, Hd, Hs, !Z.eqb_refl. reflexivity.
Qed.

Lemma matchingEntry_false m d s :
  (forall k r, get k m = Some r -> duration r <> d) ->
  matchingEntry m d s = false.
Proof.
  intros H. unfold matchingEntry.
  destruct (existsb _ _) eqn:E; [|reflexivity].
  apply existsb_exists in E as (k & _ & Hk).
  destruct (get k m) as [r|] eqn:Eg; [|discriminate].
  apply andb_prop in Hk as [Hk _]. apply Z.eqb_eq in Hk.
  exfalso. eapply H; eassumption.
Qed.

Lemma handleEntry_duplicate env m entry :
  isDuplicateFirstInput m entry = true -> handleEntry env m entry = m.
Proof.
  unfold isDuplicateFirstInput, handleEntry, isPerformanceEventTiming.
  intros H. cbv zeta. rewrite H. now destruct (Entry.interactionId entry).
Qed.

Lemma handleEntry_merge env m entry i existing :
  Entry.interactionId entry = Some i -> i <> 0 ->
  get i m = Some existing -> isDuplicateFirstInput m entry = false ->
  handleEntry env m entry =
  put i (withDuration existing (Z.max (duration existing) (Entry.duration entry))) m.
Proof.
  unfold isDuplicateFirstInput, handleEntry, isPerformanceEventTiming.
  intros Ei Hi Hg Hd. cbv zeta. rewrite Ei, Hd, Hg.
  destruct (Z.eqb_spec i 0); [contradiction|reflexivity].
Qed.

Lemma handleEntry_add env m entry i n c :
  Entry.interactionId entry = Some i -> i <> 0 ->
  get i m = None -> isDuplicateFirstInput m entry = false ->
  routeOf env = Some (n, c) -> (length m < MAX_INTERACTIONS)%nat ->
  handleEntry env m entry = put i (recordOf env n c entry) m.
Proof.
  unfold isDuplicateFirstInput, handleEntry, isPerformanceEventTiming, routeOf.
  intros Ei Hi Hg Hd Hr Hl. cbv zeta. rewrite Ei, Hd, Hg, !length_keys.
  destruct (Z.eqb_spec i 0); [contradiction|].
  apply Nat.ltb_lt in Hl as Hl'. rewrite Hl'. cbn [orb].
  destruct (truthy _) as [n'|]; [|discriminate].
  destruct (Route.context _) as [c'|]; [|discriminate].
  injection Hr as -> ->.
  destruct (minInteractionId m) as [k|]; [|reflexivity].
  destruct (Nat.leb_spec MAX_INTERACTIONS (length m)); [lia|reflexivity].
Qed.

Lemma handleEntry_full env m entry i n c k :
  Entry.interactionId entry = Some i -> i <> 0 ->
  get i m = None -> isDuplicateFirstInput m entry = false ->
  routeOf env = Some (n, c) -> (MAX_INTERACTIONS <= length m)%nat ->
  minInteractionId m = Some k ->
  handleEntry env m entry =
  if durationOf m k <? Entry.duration entry
  then put i (recordOf env n c entry) (del k m)
  else m.
Proof.
  unfold isDuplicateFirstInput, handleEntry, isPerformanceEventTiming, routeOf.
  intros Ei Hi Hg Hd Hr Hl Hm. cbv zeta. rewrite Ei, Hd, Hg, Hm, !length_keys.
  destruct (Z.eqb_spec i 0); [contradiction|].
  destruct (Nat.ltb_spec (length m) MAX_INTERACTIONS) as [Hlt|_]; [lia|].
  cbn [orb]. destruct (durationOf m k <? Entry.duration entry); [|reflexivity].
  destruct (truthy _) as [n'|]; [|discriminate].
  destruct (Route.context _) as [c'|]; [|discriminate].
  injection Hr as -> ->.
  destruct (Nat.leb_spec MAX_INTERACTIONS (length m)); [reflexivity|lia].
Qed.

(** * The sentinel and the missing route *)

(** C5. An entry whose [interactionId] is the sentinel 0 leaves the mapping
    as it is, whatever its duration, its kind and the contents of the
    mapping; and no sequence of calls ever stores a record under 0. *)
Theorem sentinel_entry_never_stored :
  (forall (env : Env) (m : InteractionRouteNameMapping) (entry : PerformanceEntry),
      Entry.interactionId entry = Some 0 -> handleEntry env m entry = m)
  /\ (forall calls : list (Env * list PerformanceEntry),
         get 0 (observeAll calls []) = None).
Proof.
  split.
  - intros env m entry Ei.
    destruct (handleEntry_outcome env m entry)
      as [|i ? Ei' Hi|i ? ? Ei' Hi|i ? ? ? Ei' Hi]; try reflexivity;
      rewrite Ei in Ei'; injection Ei' as <-; contradiction.
  - intros calls. apply get_None_keys. apply (wellFormed_reachable calls).
Qed.

Lemma sentinel_entry_never_stored_witness :
  handleEntry homeEnv twoInteractions (eventEntry 0 1000 3) = twoInteractions.
Proof.
  apply (proj1 sentinel_entry_never_stored homeEnv twoInteractions
               (eventEntry 0 1000 3)).
  reflexivity.
Defined.

(** C6. A new entry (its id has no record yet) that arrives while the route
    cell lacks a name or a context leaves the mapping exactly as it was:
    nothing is inserted and nothing is evicted, also when the mapping is
    full and the entry would win against the shortest record. *)
Theorem new_entry_without_route_is_noop :
  forall (env : Env) (m : InteractionRouteNameMapping)
         (entry : PerformanceEntry) (i : Z),
    Entry.interactionId entry = Some i ->
    get i m = None ->
    routeOf env = None ->
    handleEntry env m entry = m.
Proof.
  intros env m entry i Ei Hg Hr.
  destruct (handleEntry_outcome env m entry)
    as [|j ? Ej _ Hj|j ? ? Ej _ _ Hr'|j ? ? ? Ej _ _ Hr']; try reflexivity.
  - rewrite Ei in Ej. injection Ej as <-. congruence.
  - congruence.
  - congruence.
Qed.

Lemma new_entry_without_route_is_noop_witness :
  handleEntry noRouteEnv tenInteractions (eventEntry 11 500 0) = tenInteractions.
Proof.
  apply (new_entry_without_route_is_noop noRouteEnv tenInteractions
           (eventEntry 11 500 0) 11); reflexivity.
Defined.

(** * Merging a repeated interaction *)

(** C3, as stated, fails: with records 1 (duration 50) and 2 (duration 80,
    start 7) stored, a [first-input] entry for id 1 with duration 80 and
    start 7 repeats record 2, so the handler returns before the merge and
    record 1 keeps duration 50, not [max 50 80]. *)
Lemma merge_skipped_for_duplicate_first_input :
  exists existing,
    get 1 twoInteractions = Some existing
    /\ duration existing = 50
    /\ Entry.interactionId (firstInputEntry 1 80 7) = Some 1
    /\ get 1 (handleEntry homeEnv twoInteractions (firstInputEntry 1 80 7))
       = Some existing
    /\ duration existing
       <> Z.max (duration existing) (Entry.duration (firstInputEntry 1 80 7)).
Proof.
  eexists. split; [reflexivity|]. repeat split. discriminate.
Qed.

(** C3, amended. When the handler receives an entry whose [interactionId]
    already has a record, and the entry is not a [first-input] entry that
    repeats the duration and start time of a stored record, the record's
    duration becomes the maximum of its duration and the entry's, its other
    fields ([routeName], [parentContext], [startTime], [user],
    [activeTransaction], [replayId]) stay, and so do the other records and
    the keys. In particular id 42 observed with durations 50, 30 and 80
    (any kinds and start times) under a route leaves exactly one record,
    with duration 80. *)
Theorem repeated_interaction_keeps_longest_duration :
  (forall (calls : list (Env * list PerformanceEntry)) (env : Env)
          (entry : PerformanceEntry) (i : Z) (existing : InteractionRecord),
      Entry.interactionId entry = Some i ->
      get i (observeAll calls []) = Some existing ->
      isDuplicateFirstInput (observeAll calls []) entry = false ->
      (exists merged,
          get i (handleEntry env (observeAll calls []) entry) = Some merged
          /\ duration merged = Z.max (duration existing) (Entry.duration entry)
          /\ routeName merged = routeName existing
          /\ parentContext merged = parentContext existing
          /\ startTime merged = startTime existing
          /\ user merged = user existing
          /\ activeTransaction merged = activeTransaction existing
          /\ replayId merged = replayId existing)
      /\ (forall j, j <> i ->
                    get j (handleEntry env (observeAll calls []) entry)
                    = get j (observeAll calls []))
      /\ keys (handleEntry env (observeAll calls []) entry)
         = keys (observeAll calls []))
  /\ (forall (env : Env) n c t1 t2 t3 s1 s2 s3,
         routeOf env = Some (n, c) ->
         handleEntries env [Entry.mk t1 (Some 42) 50 s1;
                            Entry.mk t2 (Some 42) 30 s2;
                            Entry.mk t3 (Some 42) 80 s3] []
         = [(42, mkInteraction n 80 c (envUser env) (envActiveTransaction env)
                               (envReplayId env) s1)]).
Proof.
  split.
  - intros calls env entry i existing Ei Hg Hd.
    assert (Hi : i <> 0).
    { intros ->. apply get_keys in Hg. now apply (wellFormed_reachable calls). }
    rewrite (handleEntry_merge env _ entry i existing Ei Hi Hg Hd).
    split; [|split].
    + eexists. split; [apply get_put_same|]. now repeat split.
    + intros j Hj. now apply get_put_other.
    + unfold put. rewrite Hg. apply keys_replace.
  - intros env n c t1 t2 t3 s1 s2 s3 Hr. unfold handleEntries. cbn [fold_left].
    rewrite (handleEntry_add env [] _ 42 n c); try reflexivity; try lia; try assumption.
    2:{ unfold isDuplicateFirstInput. cbn. apply andb_false_r. }
    2:{ unfold MAX_INTERACTIONS. simpl. lia. }
    set (r1 := recordOf env n c (Entry.mk t1 (Some 42) 50 s1)).
    assert (E1 : put 42 r1 [] = [(42, r1)]) by reflexivity.
    rewrite E1.
    rewrite (handleEntry_merge env [(42, r1)] _ 42 r1); try reflexivity; try lia.
    2:{ unfold isDuplicateFirstInput. cbn. apply andb_false_r. }
    change (put 42 (withDuration r1 (Z.max (duration r1) 30)) [(42, r1)])
      with [(42, withDuration r1 50)].
    rewrite (handleEntry_merge env _ _ 42 (withDuration r1 50)); try reflexivity; try lia.
    unfold isDuplicateFirstInput. cbn. apply andb_false_r.
Qed.

Lemma repeated_interaction_keeps_longest_duration_witness :
  exists merged,
    get 1 (handleEntry homeEnv
             (observeAll [(homeEnv, [eventEntry 1 50 0; eventEntry 2 80 7])] [])
             (eventEntry 1 60 9)) = Some merged
    /\ duration merged = 60.
Proof.
  destruct (proj1 repeated_interaction_keeps_longest_duration
              [(homeEnv, [eventEntry 1 50 0; eventEntry 2 80 7])]
              homeEnv (eventEntry 1 60 9) 1
              (mkInteraction "/home" 50 homeContext None None None 0)
              eq_refl eq_refl eq_refl) as [(merged & Hg & Hd & _) _].
  exists merged. split; [exact Hg|exact Hd].
Defined.

(** * First-input entries that repeat a stored record *)

(** C4, as stated, fails in one order: a [first-input] entry followed by an
    [event] entry with the same duration and start time but another
    interaction id leaves two records, since only [first-input] entries are
    compared with the stored records. *)
Lemma first_input_then_event_stores_two :
  Entry.duration (firstInputEntry 1 5 0) = Entry.duration (eventEntry 2 5 0)
  /\ Entry.startTime (firstInputEntry 1 5 0) = Entry.startTime (eventEntry 2 5 0)
  /\ keys (handleEntries homeEnv [firstInputEntry 1 5 0; eventEntry 2 5 0] [])
     = [1; 2]
  /\ length (handleEntries homeEnv [firstInputEntry 1 5 0; eventEntry 2 5 0] [])
     <> 1%nat.
Proof.
  repeat split. discriminate.
Qed.

(** C4, amended. A [first-input] entry whose duration and start time equal
    those of a record already in the mapping leaves the mapping as it is;
    hence an [event] entry that is stored, followed by a [first-input]
    entry (of any id) with the same duration and start time, leaves exactly
    one record, not two. *)
Theorem duplicate_first_input_is_noop :
  (forall (env : Env) (m : InteractionRouteNameMapping)
          (entry : PerformanceEntry) (k : Z) (r : InteractionRecord),
      Entry.entryType entry = "first-input" ->
      get k m = Some r ->
      duration r = Entry.duration entry ->
      startTime r = Entry.startTime entry ->
      handleEntry env m entry = m)
  /\ (forall (env : Env) n c (i : Z) (j : option Z) (d s : Z),
         routeOf env = Some (n, c) -> i <> 0 ->
         handleEntries env [eventEntry i d s; Entry.mk "first-input" j d s] []
         = [(i, recordOf env n c (eventEntry i d s))]).
Proof.
  split.
  - intros env m entry k r Ht Hg Hd Hs. apply handleEntry_duplicate.
    unfold isDuplicateFirstInput. rewrite Ht.
    now rewrite (matchingEntry_true m k r _ _ Hg Hd Hs).
  - intros env n c i j d s Hr Hi. unfold handleEntries. cbn [fold_left].
    rewrite (handleEntry_add env [] _ i n c); try reflexivity; try assumption.
    2:{ unfold MAX_INTERACTIONS. simpl. lia. }
    set (r := recordOf env n c (eventEntry i d s)).
    assert (E : put i r [] = [(i, r)]).
    { unfold put. simpl. now destruct (isArrayIndex i). }
    rewrite E. apply handleEntry_duplicate.
    unfold isDuplicateFirstInput. simpl.
    apply (matchingEntry_true [(i, r)] i r).
    + simpl. now rewrite Z.eqb_refl.
    + reflexivity.
    + reflexivity.
Qed.

Lemma duplicate_first_input_is_noop_witness :
  handleEntry homeEnv twoInteractions (firstInputEntry 3 80 7) = twoInteractions.
Proof.
  apply (proj1 duplicate_first_input_is_noop homeEnv twoInteractions
               (firstInputEntry 3 80 7) 2
               (mkInteraction "/home" 80 homeContext None None None 7));
    reflexivity.
Defined.

(** * Eviction at capacity *)

Lemma keys_durations m : keys m = map fst (durations m).
Proof. unfold keys, durations. now rewrite map_map. Qed.

Lemma get_durations k r m : get k m = Some r -> In (k, duration r) (durations m).
Proof.
  intros H. apply get_In in H. unfold durations.
  change (k, duration r) with ((fun kr => (fst kr, duration (snd kr))) (k, r)).
  now apply in_map.
Qed.

Lemma durations_Permutation m m' :
  Permutation m m' -> Permutation (durations m) (durations m').
Proof. apply Permutation_map. Qed.

Lemma length_durations m : length (durations m) = length m.
Proof. apply length_map. Qed.

Lemma durationOf_get m k r : get k m = Some r -> durationOf m k = duration r.
Proof. intros H. unfold durationOf. now rewrite H. Qed.

Lemma minInteractionId_shortest m k rk j r :
  minInteractionId m = Some k -> get k m = Some rk -> get j m = Some r ->
  duration rk <= duration r.
Proof.
  intros Hm Hk Hj.
  rewrite <- (durationOf_get _ _ _ Hk), <- (durationOf_get _ _ _ Hj).
  apply minInteractionId_least; [assumption|]. eapply get_keys; eassumption.
Qed.

Lemma increasing_app a b :
  increasing (a ++ b) <->
  increasing a /\ increasing b
  /\ forall p q, In p a -> In q b -> snd p < snd q /\ fst p <> fst q.
Proof.
  induction a as [|x a IH]; simpl.
  - split; [intros H; repeat split; tauto|tauto].
  - rewrite IH. split.
    + intros (Hx & Ha & Hb & Hab). repeat split; try assumption.
      * apply Hx, in_or_app. now left.
      * apply Hx, in_or_app. now left.
      * destruct H as [<-|H]; [apply Hx, in_or_app; now right|now apply Hab].
      * destruct H as [<-|H]; [apply Hx, in_or_app; now right|now apply Hab].
    + intros ((Hx & Ha) & Hb & Hab). repeat split; try assumption.
      * apply in_app_or in H as [H|H]; [now apply Hx|apply Hab; [now left|assumption]].
      * apply in_app_or in H as [H|H]; [now apply Hx|apply Hab; [now left|assumption]].
      * apply Hab; [now right|assumption].
      * apply Hab; [now right|assumption].
Qed.

Lemma increasing_window L p ps :
  increasing (L ++ p :: ps) -> increasing (window L p ++ ps).
Proof.
  unfold window. intros H. destruct (_ <? _)%nat.
  - now rewrite <- app_assoc.
  - rewrite <- app_assoc. simpl. destruct L as [|p0 L']; [exact H|].
    simpl in H. apply H.
Qed.

(** One entry that is longer than, and distinct from, everything stored. *)
Lemma handleEntry_longer env n c m L e i d :
  routeOf env = Some (n, c) ->
  NoDup (keys m) -> Permutation (durations m) L ->
  increasing (L ++ [(i, d)]) -> i <> 0 ->
  Entry.interactionId e = Some i -> Entry.duration e = d ->
  NoDup (keys (handleEntry env m e))
  /\ Permutation (durations (handleEntry env m e)) (window L (i, d)).
Proof.
  intros Hr Hnd Hp Hinc Hi Ei Ed.
  apply increasing_app in Hinc as (HL & _ & Hlt).
  assert (F1 : forall q, In q L -> snd q < d /\ fst q <> i).
  { intros q Hq. apply (Hlt q (i, d)); [assumption|now left]. }
  assert (Hdup : isDuplicateFirstInput m e = false).
  { unfold isDuplicateFirstInput. rewrite matchingEntry_false; [apply andb_false_r|].
    intros k r Hg. apply get_durations in Hg.
    apply (Permutation_in _ Hp) in Hg. apply F1 in Hg. simpl in Hg. lia. }
  assert (Hnew : get i m = None).
  { apply get_None_keys. rewrite keys_durations. intros Hin.
    apply (Permutation_in _ (Permutation_map fst Hp)) in Hin.
    apply in_map_iff in Hin as (q & Hq & Hin). apply F1 in Hin. tauto. }
  assert (Hlen : length L = length m).
  { now rewrite <- (Permutation_length Hp), length_durations. }
  unfold window. destruct (Nat.ltb_spec (length L) MAX_INTERACTIONS) as [Hs|Hs].
  - rewrite (handleEntry_add env m e i n c) by (assumption || lia).
    split; [now apply NoDup_put|].
    rewrite (durations_Permutation _ _ (put_new_Permutation i _ m Hnew)).
    simpl. rewrite Ed, Hp. apply Permutation_cons_append.
  - destruct L as [|p0 L']; [unfold MAX_INTERACTIONS in Hs; simpl in Hs; lia|].
    destruct (minInteractionId_some m) as [k Hk].
    { intros ->. simpl in Hlen. discriminate. }
    destruct (keys_get _ _ (minInteractionId_keys _ _ Hk)) as [rk Hrk].
    assert (Hin : In (k, duration rk) (p0 :: L')).
    { apply (Permutation_in _ Hp). now apply get_durations. }
    assert (Hp0 : p0 = (k, duration rk)).
    { destruct Hin as [E|Hin]; [assumption|exfalso].
      assert (H0 : In p0 (durations m)).
      { apply (Permutation_in _ (Permutation_sym Hp)). now left. }
      apply in_map_iff in H0 as ([k0 r0] & E0 & H0). simpl in E0.
      apply (In_get _ _ _ Hnd) in H0.
      pose proof (minInteractionId_shortest _ _ _ _ _ Hk Hrk H0) as Hle.
      simpl in HL. destruct HL as [HL _]. apply HL in Hin.
      rewrite <- E0 in Hin. simpl in Hin. lia. }
    rewrite (handleEntry_full env m e i n c k) by (assumption || lia).
    rewrite (durationOf_get _ _ _ Hrk).
    assert (Hd : (duration rk <? Entry.duration e) = true).
    { apply Z.ltb_lt. rewrite Ed. apply (F1 _ Hin). }
    rewrite Hd.
    assert (Hik : i <> k) by (intros ->; congruence).
    assert (Hnew' : get i (del k m) = None) by (now rewrite get_del_other).
    split; [now apply NoDup_put, NoDup_del|].
    rewrite (durations_Permutation _ _ (put_new_Permutation i _ _ Hnew')).
    simpl. rewrite Ed.
    assert (Hrest : Permutation (durations (del k m)) L').
    { apply (Permutation_cons_inv (a := (k, duration rk))).
      transitivity (durations m).
      - apply Permutation_sym.
        exact (durations_Permutation _ _ (del_Permutation k rk m Hnd Hrk)).
      - now rewrite Hp, Hp0. }
    rewrite Hrest. apply Permutation_cons_append.
Qed.

(** A run of entries, each longer than and distinct from all before it. *)
Lemma handleEntries_increasing env n c es ps :
  routeOf env = Some (n, c) ->
  Forall2 describes es ps ->
  forall m L,
    NoDup (keys m) -> Permutation (durations m) L ->
    increasing (L ++ ps) -> ~ In 0 (map fst ps) ->
    Permutation (durations (handleEntries env es m)) (fold_left window ps L).
Proof.
  intros Hr HF. induction HF as [|e [i d] es ps [Ei Ed] HF IH];
    intros m L Hnd Hp Hinc H0; simpl.
  - assumption.
  - simpl in Ei, Ed.
    assert (Hi : i <> 0) by (intros ->; apply H0; now left).
    assert (Hinc1 : increasing (L ++ [(i, d)])).
    { change (L ++ (i, d) :: ps) with (L ++ [(i, d)] ++ ps) in Hinc.
      rewrite app_assoc in Hinc. now apply increasing_app in Hinc. }
    destruct (handleEntry_longer env n c m L e i d Hr Hnd Hp Hinc1 Hi Ei Ed)
      as [Hnd' Hp'].
    apply IH; try assumption.
    + now apply increasing_window.
    + intros H. apply H0. now right.
Qed.

Lemma describes_combine es ids :
  Forall2 (fun e i => Entry.interactionId e = Some i) es ids ->
  forall ds, map Entry.duration es = ds -> Forall2 describes es (combine ids ds).
Proof.
  induction 1 as [|e i es ids He HF IH]; intros ds Hd; simpl.
  - constructor.
  - destruct ds as [|d ds]; [discriminate|]. injection Hd as Hd Hds.
    constructor; [now split|now apply IH].
Qed.

Lemma increasing_combine ids :
  NoDup ids ->
  forall ds, StronglySorted Z.lt ds -> increasing (combine ids ds).
Proof.
  induction 1 as [|i ids Hi Hnd IH]; intros ds Hs; simpl; [exact I|].
  destruct ds as [|d ds]; simpl; [exact I|].
  apply StronglySorted_inv in Hs as [Hs Hd]. split; [|now apply IH].
  intros [j e] Hin. simpl. split.
  - apply in_combine_r in Hin. rewrite Forall_forall in Hd. now apply Hd.
  - apply in_combine_l in Hin. congruence.
Qed.

(** C2, as stated, fails: with ten records of durations 1 .. 10 (all
    starting at 0) the mapping is full and its shortest duration is 1; a new
    [first-input] entry for id 11, under a route, with duration 10 and
    start 0 is longer than that, yet it repeats the stored record 10 and is
    dropped: nothing is evicted and id 11 is not stored. *)
Lemma longer_duplicate_first_input_dropped_at_capacity :
  length tenInteractions = MAX_INTERACTIONS
  /\ get 11 tenInteractions = None
  /\ routeOf homeEnv = Some ("/home", homeContext)
  /\ minInteractionId tenInteractions = Some 1
  /\ durationOf tenInteractions 1 = 1
  /\ durationOf tenInteractions 1 < Entry.duration (firstInputEntry 11 10 0)
  /\ handleEntry homeEnv tenInteractions (firstInputEntry 11 10 0) = tenInteractions
  /\ get 11 (handleEntry homeEnv tenInteractions (firstInputEntry 11 10 0)) = None.
Proof.
  repeat split.
Qed.

(** C2, amended. When the mapping is at capacity and a new entry arrives
    (its id is not 0 and has no record, a route is available, and the entry
    is not a [first-input] entry repeating the duration and start time of a
    stored record), the record the reduction picks has the least duration
    of all; if the entry's duration is strictly greater, that record is
    evicted and the entry stored in its place, the other records staying;
    otherwise the mapping is unchanged. Consequently 15 entries with
    distinct non-zero ids and durations 1 .. 15, in this order, leave
    exactly the 10 records of the last ten ids, with durations 6 .. 15. *)
Theorem eviction_at_capacity :
  (forall (calls : list (Env * list PerformanceEntry)) (env : Env)
          (entry : PerformanceEntry) (i : Z) n c,
      length (observeAll calls []) = MAX_INTERACTIONS ->
      Entry.interactionId entry = Some i -> i <> 0 ->
      get i (observeAll calls []) = None ->
      routeOf env = Some (n, c) ->
      isDuplicateFirstInput (observeAll calls []) entry = false ->
      exists k shortest,
        minInteractionId (observeAll calls []) = Some k
        /\ get k (observeAll calls []) = Some shortest
        /\ (forall j r, get j (observeAll calls []) = Some r ->
                        duration shortest <= duration r)
        /\ (duration shortest < Entry.duration entry ->
            get k (handleEntry env (observeAll calls []) entry) = None
            /\ get i (handleEntry env (observeAll calls []) entry)
               = Some (recordOf env n c entry)
            /\ (forall j, j <> k -> j <> i ->
                          get j (handleEntry env (observeAll calls []) entry)
                          = get j (observeAll calls []))
            /\ length (handleEntry env (observeAll calls []) entry)
               = MAX_INTERACTIONS)
        /\ (Entry.duration entry <= duration shortest ->
            handleEntry env (observeAll calls []) entry = observeAll calls []))
  /\ (forall (env : Env) n c (entries : list PerformanceEntry) (ids : list Z),
         routeOf env = Some (n, c) ->
         Forall2 (fun e i => Entry.interactionId e = Some i) entries ids ->
         NoDup ids -> ~ In 0 ids ->
         map Entry.duration entries
         = [1; 2; 3; 4; 5; 6; 7; 8; 9; 10; 11; 12; 13; 14; 15] ->
         length (handleEntries env entries []) = 10%nat
         /\ Permutation (durations (handleEntries env entries []))
                        (combine (skipn 5 ids) [6; 7; 8; 9; 10; 11; 12; 13; 14; 15])).
Proof.
  split.
  - intros calls env entry i n c Hlen Ei Hi Hnew Hr Hdup.
    set (m := observeAll calls []) in *.
    destruct (wellFormed_reachable calls) as (Hnd & _ & _). fold m in Hnd.
    destruct (minInteractionId_some m) as [k Hk].
    { intros E. rewrite E in Hlen. discriminate. }
    destruct (keys_get _ _ (minInteractionId_keys _ _ Hk)) as [rk Hrk].
    exists k, rk. split; [assumption|]. split; [assumption|].
    split; [intros j r Hj; eapply minInteractionId_shortest; eassumption|].
    assert (Hik : i <> k) by (intros ->; congruence).
    rewrite (handleEntry_full env m entry i n c k) by (assumption || lia).
    rewrite (durationOf_get _ _ _ Hrk). split.
    + intros Hlt. apply Z.ltb_lt in Hlt. rewrite Hlt.
      split; [|split; [|split]].
      * rewrite get_put_other by congruence. apply get_del_same.
      * apply get_put_same.
      * intros j Hjk Hji. rewrite get_put_other by assumption.
        now apply get_del_other.
      * rewrite length_put_new by (now rewrite get_del_other).
        pose proof (Permutation_length (del_Permutation k rk m Hnd Hrk)) as Hl.
        simpl in Hl. lia.
    + intros Hle. destruct (Z.ltb_spec (duration rk) (Entry.duration entry)); [lia|].
      reflexivity.
  - intros env n c entries ids Hr Hids Hnd H0 Hd.
    pose proof (describes_combine _ _ Hids _ Hd) as HF.
    assert (Hinc : increasing
                     ([] ++ combine ids [1; 2; 3; 4; 5; 6; 7; 8; 9; 10; 11; 12; 13; 14; 15])).
    { simpl. apply increasing_combine; [assumption|].
      repeat (constructor; [|repeat constructor; lia]). constructor. }
    assert (Hz : ~ In 0 (map fst (combine ids
                   [1; 2; 3; 4; 5; 6; 7; 8; 9; 10; 11; 12; 13; 14; 15]))).
    { intros H. apply in_map_iff in H as ([j e] & Hj & H). simpl in Hj. subst j.
      apply in_combine_l in H. contradiction. }
    pose proof (handleEntries_increasing env n c _ _ Hr HF [] []
                  (NoDup_nil _) (Permutation_refl _) Hinc Hz) as Hp.
    assert (Hl : length ids = 15%nat).
    { rewrite <- (Forall2_length Hids), <- (length_map Entry.duration), Hd.
      reflexivity. }
    do 15 (destruct ids as [|? ids]; [discriminate Hl|]).
    destruct ids; [|discriminate Hl].
    clear - Hp. simpl in Hp. split; [|exact Hp].
    rewrite <- length_durations, (Permutation_length Hp). reflexivity.
Qed.

Lemma eviction_at_capacity_witness :
  exists k shortest,
    minInteractionId (observeAll [(homeEnv,
        map (fun i => eventEntry i i 0) [1; 2; 3; 4; 5; 6; 7; 8; 9; 10])] []) = Some k
    /\ get k tenInteractions = Some shortest
    /\ duration shortest = 1.
Proof.
  destruct (proj1 eviction_at_capacity
              [(homeEnv, map (fun i => eventEntry i i 0)
                             [1; 2; 3; 4; 5; 6; 7; 8; 9; 10])]
              homeEnv (eventEntry 11 11 0) 11 "/home" homeContext
              eq_refl eq_refl ltac:(discriminate) eq_refl eq_refl eq_refl)
    as (k & shortest & Hk & Hg & _).
  exists k, shortest. split; [exact Hk|]. split; [exact Hg|].
  vm_compute in Hk. injection Hk as <-. vm_compute in Hg. now injection Hg as <-.
Defined.

(** * The hub *)

Lemma nth_error_update_same {A} (l : list A) i f :
  nth_error (update l i f) i = option_map f (nth_error l i).
Proof.
  revert i. induction l as [|x t IH]; intros [|i]; simpl; auto.
Qed.

Lemma nth_error_update_other {A} (l : list A) i j f :
  i <> j -> nth_error (update l i f) j = nth_error l j.
Proof.
  revert i j. induction l as [|x t IH]; intros [|i] [|j] H; simpl; auto;
    try contradiction; apply IH; congruence.
Qed.

Lemma length_update {A} (l : list A) i f : length (update l i f) = length l.
Proof.
  revert i. induction l as [|x t IH]; intros [|i]; simpl; auto.
Qed.

Lemma Forall_update {A} (P : A -> Prop) (l : list A) i f :
  (forall x, P x -> P (f x)) -> Forall P l -> Forall P (update l i f).
Proof.
  intros Hf H. revert i. induction H as [|x t Hx Ht IH]; intros [|i]; simpl;
    constructor; auto.
Qed.

Lemma currentAfter_app h1 h2 cur :
  currentAfter (h1 ++ h2) cur = currentAfter h2 (currentAfter h1 cur).
Proof.
  revert cur. induction h1 as [|[id|id r] t IH]; intros cur; simpl; auto.
Qed.

Lemma isLive_update_neutral hub_ id f j :
  neutral f ->
  isLive (mkHub (update (transactions hub_) id f) (scopeTransaction hub_) (events hub_)) j
  = isLive hub_ j.
Proof.
  intros Hf. unfold isLive, txnAt. simpl.
  destruct (Nat.eq_dec id j) as [->|Hne].
  - rewrite nth_error_update_same.
    destruct (nth_error (transactions hub_) j) as [x|]; simpl; [|reflexivity].
    now rewrite (proj1 (Hf x)).
  - now rewrite nth_error_update_other.
Qed.

Lemma isLive_finishWith hub_ id r j :
  isLive (finishWith id r hub_) j = isLive hub_ j && negb (Nat.eqb j id).
Proof.
  unfold finishWith.
  destruct (txnAt hub_ id) as [x|] eqn:Ex.
  - destruct (Txn.ended x) as [r0|] eqn:Ee.
    + destruct (Nat.eqb_spec j id) as [->|Hne]; [|now rewrite andb_true_r].
      unfold isLive. now rewrite Ex, Ee.
    + unfold isLive, txnAt. simpl.
      destruct (Nat.eqb_spec j id) as [->|Hne].
      * rewrite nth_error_update_same. unfold txnAt in Ex. rewrite Ex. simpl.
        now rewrite andb_false_r.
      * rewrite nth_error_update_other by congruence. now rewrite andb_true_r.
  - destruct (Nat.eqb_spec j id) as [->|Hne]; [|now rewrite andb_true_r].
    unfold isLive. now rewrite Ex.
Qed.

Lemma events_finishWith hub_ id r :
  events (finishWith id r hub_)
  = if isLive hub_ id then events hub_ ++ [Finished id r] else events hub_.
Proof.
  unfold finishWith, isLive.
  destruct (txnAt hub_ id) as [x|]; [|reflexivity].
  now destruct (Txn.ended x).
Qed.

Lemma finishReasonOf_finishWith hub_ id r :
  isLive hub_ id = true -> finishReasonOf (finishWith id r hub_) id = Some r.
Proof.
  unfold finishWith, isLive, finishReasonOf.
  destruct (txnAt hub_ id) as [x|] eqn:Ex; [|discriminate].
  destruct (Txn.ended x) eqn:Ee; [discriminate|]. intros _.
  unfold txnAt in *. simpl. now rewrite nth_error_update_same, Ex.
Qed.

Lemma length_finishWith hub_ id r :
  length (transactions (finishWith id r hub_)) = length (transactions hub_).
Proof.
  unfold finishWith.
  destruct (txnAt hub_ id) as [x|]; [|reflexivity].
  destruct (Txn.ended x); [reflexivity|]. simpl. apply length_update.
Qed.

Lemma isLive_bound hub_ j : isLive hub_ j = true -> (j < length (transactions hub_))%nat.
Proof.
  unfold isLive, txnAt. destruct (nth_error _ j) eqn:E; [|discriminate].
  intros _. apply nth_error_Some. congruence.
Qed.

Lemma neutral_withBeat d n : neutral (fun y => Txn.withBeat y d n).
Proof. intros x. now split. Qed.

Lemma neutral_withSignal : neutral Txn.withSignal.
Proof. intros x. now split. Qed.

Lemma createRouteTransaction_spec options page context w :
  let w2 := fst (_createRouteTransaction options page context w) in
  let created := snd (_createRouteTransaction options page context w) in
  created = length (transactions (hub w))
  /\ events (hub w2) = events (hub w) ++ [Started created]
  /\ (forall j, isLive (hub w2) j = Nat.eqb j created || isLive (hub w) j)
  /\ (Forall (fun x => Txn.finishReason x = Reason.external) (transactions (hub w)) ->
      Forall (fun x => Txn.finishReason x = Reason.external) (transactions (hub w2)))
  /\ activeSpan w2 = activeSpan w.
Proof.
  unfold _createRouteTransaction, startIdleTransaction.
  set (finalContext := if String.eqb _ _ then _ else _).
  set (isPageload := match Ctx.op context with Some o => _ | None => false end).
  set (x := Txn.mk _ _ _ _ _ _ _ _ _ _).
  set (h1 := mkHub (transactions (hub w) ++ [x]) _ _).
  set (id := length (transactions (hub w))).
  assert (Hbase : forall j, isLive h1 j = Nat.eqb j id || isLive (hub w) j).
  { intros j. unfold isLive, txnAt, h1. simpl.
    destruct (Nat.eqb_spec j id) as [->|Hne]; simpl.
    - unfold id. now rewrite nth_error_app2, Nat.sub_diag by lia.
    - destruct (Nat.lt_ge_cases j id) as [Hlt|Hge].
      + now rewrite nth_error_app1 by assumption.
      + rewrite (proj2 (nth_error_None (transactions (hub w)) j)) by (unfold id in *; lia).
        rewrite (proj2 (nth_error_None _ j)); [reflexivity|].
        rewrite length_app. simpl. unfold id in *. lia. }
  assert (Hreasons :
            Forall (fun y => Txn.finishReason y = Reason.external) (transactions (hub w)) ->
            Forall (fun y => Txn.finishReason y = Reason.external) (transactions h1)).
  { intros H. unfold h1. simpl. apply Forall_app. split; [assumption|].
    now repeat constructor. }
  simpl.
  destruct (readyState page) as [state|]; simpl.
  - destruct (isPageload && isReady state); simpl.
    + repeat split; try reflexivity.
      * intros j. rewrite <- Hbase. unfold sendAutoFinishSignal.
        apply isLive_update_neutral, neutral_withSignal.
      * intros H. apply Forall_update; [|now apply Hreasons].
        intros y Hy. exact Hy.
    + repeat split; try reflexivity; assumption.
  - repeat split; try reflexivity; assumption.
Qed.

Lemma createRouteTransaction_txnAt options page context w j :
  (j < length (transactions (hub w)))%nat ->
  txnAt (hub (fst (_createRouteTransaction options page context w))) j
  = txnAt (hub w) j.
Proof.
  intros Hj. unfold _createRouteTransaction, startIdleTransaction, txnAt.
  simpl. destruct (readyState page) as [state|]; simpl.
  - destruct (_ && isReady state); simpl.
    + rewrite nth_error_update_other by lia. now apply nth_error_app1.
    + now apply nth_error_app1.
  - now apply nth_error_app1.
Qed.

(** * The heartbeat *)

Lemma heartbeatTick_txnAt hub_ id d x :
  txnAt hub_ id = Some x -> txnAt (heartbeatTick id d hub_) id = Some (beat d x).
Proof.
  intros Ex. unfold heartbeatTick, beat. rewrite Ex.
  destruct (Txn.ended x) eqn:Ee; [assumption|].
  set (misses := if d =? Txn.recordedDuration x
                 then S (Txn.heartbeatMissCount x) else 0%nat).
  set (hub' := mkHub _ _ _).
  assert (Ey : txnAt hub' id = Some (Txn.withBeat x d misses)).
  { unfold txnAt, hub' in *. simpl. now rewrite nth_error_update_same, Ex. }
  destruct (HEARTBEAT_MISSES <=? misses)%nat; [|assumption].
  unfold finishWith. rewrite Ey.
  change (Txn.ended (Txn.withBeat x d misses)) with (Txn.ended x). rewrite Ee.
  unfold txnAt in *. cbn [transactions]. now rewrite nth_error_update_same, Ey.
Qed.

(** C9. A live span whose duration to date equals the recorded one on three
    consecutive heartbeat ticks is finished with [heartbeatFailed] (not
    before the third tick when its miss counter starts at zero); a tick on
    which the duration has changed leaves the span live with the miss
    counter at zero; so after an unchanged first tick a change on the
    second tick means the third tick does not finish the span. *)
Theorem heartbeat_three_misses_finish :
  forall (hub_ : Hub) (id : nat) (x : IdleTransaction) (d : Z),
    txnAt hub_ id = Some x ->
    Txn.ended x = None ->
    Txn.recordedDuration x = d ->
    finishReasonOf (heartbeatTick id d (heartbeatTick id d (heartbeatTick id d hub_))) id
    = Some Reason.heartbeatFailed
    /\ (Txn.heartbeatMissCount x = 0%nat ->
        finishReasonOf (heartbeatTick id d (heartbeatTick id d hub_)) id = None)
    /\ (forall d2, d2 <> d ->
          exists y, txnAt (heartbeatTick id d2 hub_) id = Some y
                    /\ Txn.ended y = None
                    /\ Txn.heartbeatMissCount y = 0%nat
                    /\ Txn.recordedDuration y = d2)
    /\ (forall d2 d3, Txn.heartbeatMissCount x = 0%nat -> d2 <> d ->
          finishReasonOf
            (heartbeatTick id d3 (heartbeatTick id d2 (heartbeatTick id d hub_))) id
          = None).
Proof.
  intros hub_ id x d Ex Ee Ed.
  pose proof (heartbeatTick_txnAt hub_ id d x Ex) as E1.
  pose proof (heartbeatTick_txnAt _ id d _ E1) as E2.
  pose proof (heartbeatTick_txnAt _ id d _ E2) as E3.
  unfold finishReasonOf.
  split; [|split; [|split]].
  - rewrite E3. clear -Ee Ed. destruct x as [c i f h a g fr e rd n].
    simpl in *. subst. unfold beat. simpl. rewrite Z.eqb_refl.
    destruct n as [|[|[|n]]]; simpl; rewrite ?Z.eqb_refl; reflexivity.
  - intros Hn. rewrite E2. clear -Ee Ed Hn. destruct x as [c i f h a g fr e rd n].
    simpl in *. subst. unfold beat. simpl. rewrite Z.eqb_refl. simpl.
    rewrite Z.eqb_refl. reflexivity.
  - intros d2 Hd2. exists (beat d2 x).
    split; [now apply heartbeatTick_txnAt|].
    unfold beat. rewrite Ee, Ed.
    destruct (Z.eqb_spec d2 d); [contradiction|]. now simpl.
  - intros d2 d3 Hn Hd2.
    pose proof (heartbeatTick_txnAt _ id d2 _ E1) as E2'.
    pose proof (heartbeatTick_txnAt _ id d3 _ E2') as E3'.
    rewrite E3'. clear -Ee Ed Hn Hd2. destruct x as [c i f h a g fr e rd n].
    simpl in *. subst. unfold beat. simpl. rewrite Z.eqb_refl. simpl.
    destruct (Z.eqb_spec d2 d); [contradiction|]. simpl.
    destruct (d3 =? d2); reflexivity.
Qed.

Lemma heartbeat_three_misses_finish_witness :
  finishReasonOf
    (heartbeatTick 0 0 (heartbeatTick 0 0 (heartbeatTick 0 0
       (hub (signals DEFAULT_BROWSER_TRACING_OPTIONS homePage
                     [NavigationSpan aboutContext] (initialWorld None)))))) 0
  = Some Reason.heartbeatFailed.
Proof.
  set (h := hub (signals DEFAULT_BROWSER_TRACING_OPTIONS homePage
                         [NavigationSpan aboutContext] (initialWorld None))).
  destruct (txnAt h 0) as [x|] eqn:E; [|vm_compute in E; discriminate E].
  apply (heartbeat_three_misses_finish h 0%nat x 0 E);
    vm_compute in E; injection E as <-; reflexivity.
Defined.

(** * Clicks during a page load or a navigation *)

(** C10. When the transaction on the scope has op [navigation] or
    [pageload], a click changes nothing: no interaction transaction is
    created, and neither the hub (so the active transaction, which is not
    ended, and the history) nor the listener's state is touched. *)
Theorem click_during_route_transaction_is_noop :
  forall (options : BrowserTracingOptions) (w : World) (id : nat)
         (x : IdleTransaction) (o : string),
    getActiveTransaction (hub w) = Some (id, x) ->
    Txn.op x = Some o ->
    o = "navigation" \/ o = "pageload" ->
    registerInteractionTransaction options w = w.
Proof.
  intros options w id x o Ha Ho Hop.
  unfold registerInteractionTransaction. rewrite Ha, Ho.
  destruct Hop as [-> | ->]; reflexivity.
Qed.

Lemma click_during_route_transaction_is_noop_witness :
  registerInteractionTransaction DEFAULT_BROWSER_TRACING_OPTIONS
    (signals DEFAULT_BROWSER_TRACING_OPTIONS homePage
             [PageLoadSpan homeContext] (initialWorld None))
  = signals DEFAULT_BROWSER_TRACING_OPTIONS homePage
            [PageLoadSpan homeContext] (initialWorld None).
Proof.
  set (w := signals DEFAULT_BROWSER_TRACING_OPTIONS homePage
                    [PageLoadSpan homeContext] (initialWorld None)).
  destruct (getActiveTransaction (hub w)) as [[id x]|] eqn:E;
    [|vm_compute in E; discriminate E].
  apply (click_during_route_transaction_is_noop
           DEFAULT_BROWSER_TRACING_OPTIONS w id x "pageload" E);
    [|right; reflexivity].
  vm_compute in E. injection E as <- <-. reflexivity.
Defined.

(** * Construction *)



(** * Further properties of the interaction cache *)

Lemma put_same k v m : get k m = Some v -> put k v m = m.
Proof.
  intros H. unfold put. rewrite H.
  induction m as [|[k' r'] t IH]; simpl in *; [discriminate|].
  destruct (Z.eqb_spec k k') as [->|Hne].
  - now injection H as ->.
  - f_equal. now apply IH.
Qed.

Lemma withDuration_same r : withDuration r (duration r) = r.
Proof. now destruct r. Qed.

Lemma routeOf_Some env n c :
  routeOf env = Some (n, c) ->
  n <> "" /\ Route.name (latestRoute env) = Some n
  /\ Route.context (latestRoute env) = Some c.
Proof.
  unfold routeOf, truthy.
  destruct (Route.name (latestRoute env)) as [x|]; [|discriminate].
  destruct (String.eqb_spec x ""); [discriminate|].
  destruct (Route.context (latestRoute env)) as [c'|]; [|discriminate].
  intros H. injection H as -> ->. now repeat split.
Qed.

(** X1. A record that stays in the mapping across one entry changes in
    its duration only, and its duration does not decrease. *)
Theorem stored_record_only_grows :
  forall (env : Env) (m : InteractionRouteNameMapping) (entry : PerformanceEntry)
         (k : Z) (r r' : InteractionRecord),
    get k m = Some r ->
    get k (handleEntry env m entry) = Some r' ->
    duration r <= duration r'
    /\ r' = withDuration r (duration r').
Proof.
  intros env m entry k r r' Hg Hg'.
  destruct (handleEntry_outcome env m entry)
    as [|i existing Ei Hi He|i n c Ei Hi He Hr Hl|i n c kmin Ei Hi He Hr Hl Hm Hd].
  - rewrite Hg in Hg'. injection Hg' as <-.
    split; [lia|now rewrite withDuration_same].
  - destruct (Z.eq_dec k i) as [->|Hne].
    + rewrite get_put_same in Hg'. injection Hg' as <-.
      rewrite Hg in He. injection He as <-. simpl. split; [lia|reflexivity].
    + rewrite get_put_other, Hg in Hg' by assumption. injection Hg' as <-.
      split; [lia|now rewrite withDuration_same].
  - assert (Hne : k <> i) by (intros ->; congruence).
    rewrite get_put_other, Hg in Hg' by assumption. injection Hg' as <-.
    split; [lia|now rewrite withDuration_same].
  - assert (Hne : k <> i) by (intros ->; congruence).
    rewrite get_put_other in Hg' by assumption.
    destruct (Z.eq_dec k kmin) as [->|Hk].
    + rewrite get_del_same in Hg'. discriminate.
    + rewrite get_del_other, Hg in Hg' by assumption. injection Hg' as <-.
      split; [lia|now rewrite withDuration_same].
Qed.

Lemma stored_record_only_grows_witness :
  duration (mkInteraction "/home" 50 homeContext None None None 0)
  <= duration (mkInteraction "/home" 60 homeContext None None None 0).
Proof.
  apply (stored_record_only_grows homeEnv twoInteractions (eventEntry 1 60 9) 1
           (mkInteraction "/home" 50 homeContext None None None 0)
           (mkInteraction "/home" 60 homeContext None None None 0));
    reflexivity.
Defined.

Lemma length_del_NoDup k r m :
  NoDup (keys m) -> get k m = Some r -> length m = S (length (del k m)).
Proof.
  intros Hnd Hg. now rewrite (Permutation_length (del_Permutation k r m Hnd Hg)).
Qed.

Lemma handleEntry_length_mono env m entry :
  NoDup (keys m) -> (length m <= length (handleEntry env m entry))%nat.
Proof.
  intros Hnd.
  destruct (handleEntry_outcome env m entry)
    as [|i existing Ei Hi He|i n c Ei Hi He Hr Hl|i n c kmin Ei Hi He Hr Hl Hm Hd].
  - lia.
  - unfold put. rewrite He, length_replace. lia.
  - rewrite length_put_new by assumption. lia.
  - destruct (keys_get _ _ (minInteractionId_keys _ _ Hm)) as [rk Hrk].
    assert (Hne : i <> kmin) by (intros ->; congruence).
    rewrite length_put_new by (now rewrite get_del_other).
    rewrite (length_del_NoDup kmin rk m Hnd Hrk). lia.
Qed.

Lemma observeAll_app a b m :
  observeAll (a ++ b) m = observeAll b (observeAll a m).
Proof. unfold observeAll. apply fold_left_app. Qed.

Lemma observeAll_length_mono calls m :
  wellFormed m -> (length m <= length (observeAll calls m))%nat.
Proof.
  revert m. induction calls as [|[env es] t IH]; intros m Hw; simpl; [lia|].
  etransitivity; [|apply IH; now apply handleEntries_wellFormed].
  clear IH t. simpl. unfold handleEntries. revert m Hw.
  induction es as [|e es IH]; intros m Hw; simpl; [lia|].
  etransitivity; [apply (handleEntry_length_mono env m e), Hw|].
  apply IH. now apply handleEntry_wellFormed.
Qed.

(** X2. The mapping never shrinks: along every history of calls, the
    number of records after a longer history is at least the number after
    any prefix of it (a record leaves only when another takes its place). *)
Theorem cache_never_shrinks :
  forall (before after : list (Env * list PerformanceEntry)),
    (length (observeAll before []) <= length (observeAll (before ++ after) []))%nat.
Proof.
  intros before after. rewrite observeAll_app.
  apply observeAll_length_mono, wellFormed_reachable.
Qed.


Lemma tenInteractions_floor k r : get k tenInteractions = Some r -> 1 <= duration r.
Proof.
  intros H. apply get_In in H. vm_compute in H.
  repeat (destruct H as [H|H]; [injection H as _ <-; simpl; lia|]).
  contradiction.
Defined.


(** X4. Below capacity a new entry under a route is stored whatever its
    duration: its id maps to the record taken from the entry and the
    environment, every other id keeps its record, and the mapping grows by
    one. *)
Theorem new_entry_below_capacity_is_stored :
  forall (env : Env) (m : InteractionRouteNameMapping) (entry : PerformanceEntry)
         (i : Z) n c,
    Entry.interactionId entry = Some i -> i <> 0 ->
    get i m = None ->
    isDuplicateFirstInput m entry = false ->
    routeOf env = Some (n, c) ->
    (length m < MAX_INTERACTIONS)%nat ->
    get i (handleEntry env m entry)
    = Some (mkInteraction n (Entry.duration entry) c (envUser env)
                          (envActiveTransaction env) (envReplayId env)
                          (Entry.startTime entry))
    /\ (forall j, j <> i -> get j (handleEntry env m entry) = get j m)
    /\ length (handleEntry env m entry) = S (length m).
Proof.
  intros env m entry i n c Ei Hi Hg Hd Hr Hl.
  rewrite (handleEntry_add env m entry i n c Ei Hi Hg Hd Hr Hl).
  split; [apply get_put_same|]. split.
  - intros j Hj. now apply get_put_other.
  - now apply length_put_new.
Qed.

Lemma new_entry_below_capacity_is_stored_witness :
  get 3 (handleEntry homeEnv twoInteractions (eventEntry 3 1 4))
  = Some (mkInteraction "/home" 1 homeContext None None None 4).
Proof.
  apply (new_entry_below_capacity_is_stored homeEnv twoInteractions
           (eventEntry 3 1 4) 3 "/home" homeContext);
    try reflexivity; [discriminate|vm_compute; repeat constructor].
Defined.

Lemma reduce_last_min (dur : Z -> Z) ks :
  forall pre k mid,
    (forall j, In j pre -> dur k <= dur j) ->
    (forall j, In j mid -> dur k < dur j) ->
    exists l1 l2,
      pre ++ k :: mid ++ ks
      = l1 ++ fold_left (fun a b => if dur a <? dur b then a else b) ks k :: l2
      /\ (forall j, In j l1 ->
            dur (fold_left (fun a b => if dur a <? dur b then a else b) ks k) <= dur j)
      /\ (forall j, In j l2 ->
            dur (fold_left (fun a b => if dur a <? dur b then a else b) ks k) < dur j).
Proof.
  induction ks as [|b ks IH]; intros pre k mid Hpre Hmid; simpl.
  - exists pre, mid. rewrite app_nil_r. now repeat split.
  - destruct (Z.ltb_spec (dur k) (dur b)) as [Hlt|Hge].
    + destruct (IH pre k (mid ++ [b]) Hpre) as (l1 & l2 & E & H1 & H2).
      { intros j Hj. apply in_app_or in Hj as [Hj|[<-|[]]]; [now apply Hmid|assumption]. }
      exists l1, l2. rewrite <- E, <- app_assoc. now repeat split.
    + destruct (IH (pre ++ k :: mid) b []) as (l1 & l2 & E & H1 & H2).
      { intros j Hj. apply in_app_or in Hj as [Hj|[<-|Hj]].
        - specialize (Hpre _ Hj). lia.
        - assumption.
        - specialize (Hmid _ Hj). lia. }
      { intros j []. }
      exists l1, l2. rewrite <- E, <- app_assoc. now repeat split.
Qed.

(** X5. The record picked for eviction is the last one, in the order of
    [Object.keys], among those of least duration: the keys before it are
    no shorter and the keys after it are strictly longer. *)
Theorem eviction_picks_last_shortest :
  forall (m : InteractionRouteNameMapping) (k : Z),
    minInteractionId m = Some k ->
    exists before after,
      keys m = before ++ k :: after
      /\ (forall j, In j before -> durationOf m k <= durationOf m j)
      /\ (forall j, In j after -> durationOf m k < durationOf m j).
Proof.
  intros m k. unfold minInteractionId.
  destruct (keys m) as [|k0 ks]; [discriminate|].
  intros H. injection H as <-.
  destruct (reduce_last_min (durationOf m) ks [] k0 [])
    as (l1 & l2 & E & H1 & H2); try (intros j []).
  exists l1, l2. simpl in E. now repeat split.
Qed.

Lemma eviction_picks_last_shortest_witness :
  exists before after,
    keys (handleEntries homeEnv
            [eventEntry 1 5 0; eventEntry 2 9 0; eventEntry 3 5 0] [])
    = before ++ 3 :: after.
Proof.
  destruct (eviction_picks_last_shortest
              (handleEntries homeEnv
                 [eventEntry 1 5 0; eventEntry 2 9 0; eventEntry 3 5 0] []) 3
              eq_refl) as (before & after & E & _).
  exists before, after. exact E.
Defined.

(** X6. Delivering the same entry twice in a row is the same as delivering
    it once. *)
Theorem redelivery_is_idempotent :
  forall (env : Env) (m : InteractionRouteNameMapping) (entry : PerformanceEntry),
    handleEntry env (handleEntry env m entry) entry = handleEntry env m entry.
Proof.
  intros env m entry.
  assert (Hstored : forall i r m',
             Entry.interactionId entry = Some i ->
             get i m' = Some r -> Entry.duration entry <= duration r ->
             handleEntry env m' entry = m').
  { intros i r m' Ei Hg Hd.
    destruct (handleEntry_outcome env m' entry)
      as [|j existing Ej Hj He|j n c Ej Hj He Hr Hl|j n c kmin Ej Hj He Hr Hl Hm Hdd];
      try reflexivity; rewrite Ei in Ej; injection Ej as <-; try congruence.
    rewrite Hg in He. injection He as <-.
    rewrite Z.max_l by assumption. rewrite withDuration_same.
    now apply put_same. }
  pose proof (handleEntry_outcome env m entry) as Ho.
  remember (handleEntry env m entry) as m' eqn:E.
  destruct Ho
    as [|i existing Ei Hi He|i n c Ei Hi He Hr Hl|i n c kmin Ei Hi He Hr Hl Hm Hd].
  - now symmetry.
  - eapply Hstored; [eassumption|apply get_put_same|]. simpl. lia.
  - eapply Hstored; [eassumption|apply get_put_same|]. simpl. lia.
  - eapply Hstored; [eassumption|apply get_put_same|]. simpl. lia.
Qed.

Lemma keys_put_existing k v r m : get k m = Some r -> keys (put k v m) = keys m.
Proof. intros H. unfold put. rewrite H. apply keys_replace. Qed.

(** X7. While the route cell lacks a name or a context, a whole batch can
    only lengthen records that are already stored: the keys of the mapping,
    in order, stay as they are. *)
Theorem batch_without_route_keeps_keys :
  forall (env : Env) (entries : list PerformanceEntry)
         (m : InteractionRouteNameMapping),
    routeOf env = None ->
    keys (handleEntries env entries m) = keys m.
Proof.
  intros env entries m Hr. unfold handleEntries. revert m.
  induction entries as [|e es IH]; intros m; simpl; [reflexivity|].
  rewrite IH.
  destruct (handleEntry_outcome env m e)
    as [|i existing Ei Hi He|i n c Ei Hi He Hr'|i n c kmin Ei Hi He Hr'];
    try congruence.
  eapply keys_put_existing; eassumption.
Qed.

Lemma batch_without_route_keeps_keys_witness :
  keys (handleEntries noRouteEnv
          [eventEntry 1 90 0; eventEntry 5 70 0; firstInputEntry 6 3 3]
          twoInteractions)
  = keys twoInteractions.
Proof.
  apply (batch_without_route_keeps_keys noRouteEnv
           [eventEntry 1 90 0; eventEntry 5 70 0; firstInputEntry 6 3 3]
           twoInteractions).
  reflexivity.
Defined.

Lemma handleEntry_routeName env m entry :
  (forall k r, get k m = Some r -> routeName r <> "") ->
  forall k r, get k (handleEntry env m entry) = Some r -> routeName r <> "".
Proof.
  intros Hm k r.
  destruct (handleEntry_outcome env m entry)
    as [|i existing Ei Hi He|i n c Ei Hi He Hr Hl|i n c kmin Ei Hi He Hr Hl Hmin Hd].
  - apply Hm.
  - destruct (Z.eq_dec k i) as [->|Hne].
    + rewrite get_put_same. intros H. injection H as <-. simpl. now apply (Hm i).
    + rewrite get_put_other by assumption. apply Hm.
  - destruct (Z.eq_dec k i) as [->|Hne].
    + rewrite get_put_same. intros H. injection H as <-. simpl.
      now apply routeOf_Some in Hr.
    + rewrite get_put_other by assumption. apply Hm.
  - destruct (Z.eq_dec k i) as [->|Hne].
    + rewrite get_put_same. intros H. injection H as <-. simpl.
      now apply routeOf_Some in Hr.
    + rewrite get_put_other by assumption.
      destruct (Z.eq_dec k kmin) as [->|Hk].
      * rewrite get_del_same. discriminate.
      * rewrite get_del_other by assumption. apply Hm.
Qed.

(** X8. Every record the handler ever stores carries a non-empty route
    name: an empty name in the route cell counts as no route. *)
Theorem stored_records_have_route_name :
  forall (calls : list (Env * list PerformanceEntry)) (k : Z)
         (r : InteractionRecord),
    get k (observeAll calls []) = Some r -> routeName r <> "".
Proof.
  intros calls.
  assert (H : forall m, (forall k r, get k m = Some r -> routeName r <> "") ->
                        forall k r, get k (observeAll calls m) = Some r ->
                                    routeName r <> "").
  { unfold observeAll. induction calls as [|[env es] t IH]; intros m Hm; simpl;
      [assumption|].
    apply IH. clear IH t. unfold handleEntries. revert m Hm.
    induction es as [|e es IH]; intros m Hm; simpl; [assumption|].
    apply IH. now apply handleEntry_routeName. }
  apply H. intros k r. discriminate.
Qed.

Lemma stored_records_have_route_name_witness :
  routeName (mkInteraction "/home" 80 homeContext None None None 7) <> "".
Proof.
  apply (stored_records_have_route_name
           [(homeEnv, [eventEntry 1 50 0; eventEntry 2 80 7])] 2).
  reflexivity.
Defined.

(** * Further properties of route transactions *)

Lemma createRouteTransaction_route options page context w :
  route (fst (_createRouteTransaction options page context w))
  = Route.mk (Some (Ctx.name (finalContextOf options page context)))
             (Some (finalContextOf options page context)).
Proof. reflexivity. Qed.

Lemma createRouteTransaction_created options page context w :
  exists x,
    txnAt (hub (fst (_createRouteTransaction options page context w)))
          (length (transactions (hub w))) = Some x
    /\ Txn.context x = finalContextOf options page context
    /\ Txn.idleTimeout x = Options.idleTimeout options
    /\ Txn.finalTimeout x = Options.finalTimeout options
    /\ Txn.heartbeatInterval x = Options.heartbeatInterval options
    /\ Txn.delayAutoFinish x = isPageload context
    /\ Txn.autoFinishSignal x
       = isPageload context
         && match readyState page with
            | Some state => isReady state
            | None => false
            end
    /\ Txn.ended x = None
    /\ scopeTransaction (hub (fst (_createRouteTransaction options page context w)))
       = Some (length (transactions (hub w))).
Proof.
  unfold _createRouteTransaction, startIdleTransaction, txnAt.
  fold (isPageload context). fold (expandContext page context).
  fold (finalContextOf options page context). simpl.
  destruct (readyState page) as [state|]; simpl.
  - destruct (isPageload context && isReady state) eqn:E; simpl.
    + rewrite nth_error_update_same, nth_error_app2, Nat.sub_diag by lia.
      simpl. eexists. split; [reflexivity|]. simpl. now repeat split.
    + rewrite nth_error_app2, Nat.sub_diag by lia.
      simpl. eexists. split; [reflexivity|]. simpl. now repeat split.
  - rewrite nth_error_app2, Nat.sub_diag by lia.
    simpl. eexists. split; [reflexivity|]. simpl.
    rewrite andb_false_r. now repeat split.
Qed.

Lemma length_endTransaction s h :
  length (transactions (endTransaction s h)) = length (transactions h).
Proof.
  unfold endTransaction. destruct (txnAt h s); [apply length_finishWith|reflexivity].
Qed.

Lemma startRouteSpan_created o options page context w :
  exists x,
    activeSpan (startRouteSpan o options page context w)
    = Some (length (transactions (hub w)))
    /\ txnAt (hub (startRouteSpan o options page context w))
             (length (transactions (hub w))) = Some x
    /\ scopeTransaction (hub (startRouteSpan o options page context w))
       = Some (length (transactions (hub w)))
    /\ route (startRouteSpan o options page context w)
       = Route.mk (Some (Ctx.name (finalContextOf options page (withDefaultOp o context))))
                  (Some (finalContextOf options page (withDefaultOp o context)))
    /\ Txn.context x = finalContextOf options page (withDefaultOp o context)
    /\ Txn.idleTimeout x = Options.idleTimeout options
    /\ Txn.finalTimeout x = Options.finalTimeout options
    /\ Txn.heartbeatInterval x = Options.heartbeatInterval options
    /\ Txn.delayAutoFinish x = isPageload (withDefaultOp o context)
    /\ Txn.autoFinishSignal x
       = isPageload (withDefaultOp o context)
         && match readyState page with
            | Some state => isReady state
            | None => false
            end
    /\ Txn.ended x = None
    /\ inflightInteractionTransaction (startRouteSpan o options page context w)
       = inflightInteractionTransaction w
    /\ startingUrl (startRouteSpan o options page context w) = startingUrl w.
Proof.
  unfold startRouteSpan.
  set (w1 := match activeSpan w with
             | Some span => mkWorld (endTransaction span (hub w)) _ _ _ _
             | None => w
             end).
  assert (Hlen : length (transactions (hub w1)) = length (transactions (hub w))).
  { unfold w1. destruct (activeSpan w); [apply length_endTransaction|reflexivity]. }
  assert (Hin : inflightInteractionTransaction w1 = inflightInteractionTransaction w
                /\ startingUrl w1 = startingUrl w).
  { unfold w1. now destruct (activeSpan w). }
  destruct (createRouteTransaction_created options page (withDefaultOp o context) w1)
    as (x & Hx & Hrest).
  pose proof (createRouteTransaction_route options page (withDefaultOp o context) w1)
    as Hroute.
  pose proof (createRouteTransaction_spec options page (withDefaultOp o context) w1)
    as Hspec.
  destruct (_createRouteTransaction options page (withDefaultOp o context) w1)
    as [w2 created] eqn:E.
  cbv zeta in Hspec. simpl in Hx, Hrest, Hroute, Hspec.
  destruct Hspec as (Hid & _). rewrite Hlen in *. subst created.
  assert (Hkeep : inflightInteractionTransaction w2 = inflightInteractionTransaction w1
                  /\ startingUrl w2 = startingUrl w1).
  { unfold _createRouteTransaction in E.
    destruct (startIdleTransaction _ _ _ _ _ _ _) as [h1 i1].
    injection E as <- _. now split. }
  exists x. simpl.
  destruct Hrest as (H1 & H2 & H3 & H4 & H5 & H6 & H7 & H8).
  destruct Hin as [Hi1 Hi2]. destruct Hkeep as [Hk1 Hk2].
  repeat split; try assumption; congruence.
Qed.





(** X11. With a [beforeStartSpan] hook, the route cell holds what the hook
    returns for the expanded context, under its name. The returned context
    is marked with metadata source [custom], and is otherwise stored as
    returned, exactly when its name differs from the name the hook's
    argument has after the call. So a hook that builds a renamed context
    and leaves its argument alone gets the mark, and a hook that renames
    its argument in place and returns it does not. *)
Theorem hook_rename_marks_custom_source :
  forall (options : BrowserTracingOptions) (page : Page)
         (context : TransactionContext) (w : World) (o : string) (hook : Hook),
    Options.beforeStartSpan options = Some hook ->
    exists c,
      route (startRouteSpan o options page context w)
      = Route.mk (Some (Ctx.name c)) (Some c)
      /\ Ctx.name c
         = Ctx.name (hookReturned (hook (expandContext page (withDefaultOp o context))))
      /\ (Ctx.name (hookReturned (hook (expandContext page (withDefaultOp o context))))
          <> Ctx.name (hookArgument (hook (expandContext page (withDefaultOp o context))))
          -> c = withCustomSource
                   (hookReturned (hook (expandContext page (withDefaultOp o context)))))
      /\ (Ctx.name (hookReturned (hook (expandContext page (withDefaultOp o context))))
          = Ctx.name (hookArgument (hook (expandContext page (withDefaultOp o context))))
          -> c = hookReturned (hook (expandContext page (withDefaultOp o context))))
      /\ (hookArgument (hook (expandContext page (withDefaultOp o context)))
          = expandContext page (withDefaultOp o context) ->
          Ctx.name c <> Ctx.name context ->
          c = withCustomSource
                (hookReturned (hook (expandContext page (withDefaultOp o context)))))
      /\ (hookArgument (hook (expandContext page (withDefaultOp o context)))
          = hookReturned (hook (expandContext page (withDefaultOp o context))) ->
          c = hookReturned (hook (expandContext page (withDefaultOp o context)))).
Proof.
  intros options page context w o hook Hb.
  destruct (startRouteSpan_created o options page context w)
    as (x & _ & _ & _ & Hr & _).
  rewrite Hr. exists (finalContextOf options page (withDefaultOp o context)).
  split; [reflexivity|]. unfold finalContextOf. rewrite Hb. cbv zeta.
  assert (En : Ctx.name (expandContext page (withDefaultOp o context))
               = Ctx.name context).
  { unfold expandContext. now destruct (match _ with Some _ => _ | None => _ end). }
  set (r := hook (expandContext page (withDefaultOp o context))).
  destruct (String.eqb_spec (Ctx.name (hookReturned r)) (Ctx.name (hookArgument r)))
    as [E|E].
  - split; [reflexivity|]. split; [intros H; contradiction|].
    split; [reflexivity|]. split.
    + intros Ha Hn. exfalso. apply Hn. rewrite E, Ha. exact En.
    + reflexivity.
  - split; [reflexivity|]. split; [reflexivity|].
    split; [intros H; contradiction|]. split.
    + reflexivity.
    + intros Ha. exfalso. apply E. now rewrite Ha.
Qed.

Lemma hook_rename_marks_custom_source_witness :
  exists c,
    route (startNavigationSpan renamingOptions homePage aboutContext
                               (initialWorld None))
    = Route.mk (Some (Ctx.name c)) (Some c)
    /\ Ctx.name c = "/users/:id"
    /\ Ctx.metadataSource c = Some "custom".
Proof.
  destruct (hook_rename_marks_custom_source renamingOptions homePage aboutContext
              (initialWorld None) "navigation" (renamingHook "/users/:id") eq_refl)
    as (c & Hr & Hn & Hc & _).
  exists c. split; [exact Hr|]. split; [exact Hn|].
  rewrite Hc; [reflexivity|]. discriminate.
Defined.


(** * Further properties of the click listener *)

Lemma length_setFinishReason i r h :
  length (transactions (setFinishReason i r h)) = length (transactions h).
Proof. unfold setFinishReason. simpl. apply length_update. Qed.

Lemma interrupted_reason i r h :
  isLive h i = true ->
  finishReasonOf (endTransaction i (setFinishReason i r h)) i = Some r.
Proof.
  unfold isLive. destruct (txnAt h i) as [x|] eqn:Ex; [|discriminate].
  destruct (Txn.ended x) eqn:Ee; [discriminate|]. intros _.
  assert (Ey : txnAt (setFinishReason i r h) i = Some (Txn.withReason x r)).
  { unfold txnAt, setFinishReason in *. simpl.
    rewrite nth_error_update_same, Ex. simpl. now rewrite Ee. }
  unfold endTransaction. rewrite Ey. simpl.
  apply finishReasonOf_finishWith. unfold isLive. rewrite Ey. simpl. now rewrite Ee.
Qed.

Lemma startIdleTransaction_txnAt h c a b s d e j :
  (j < length (transactions h))%nat ->
  txnAt (fst (startIdleTransaction h c a b s d e)) j = txnAt h j.
Proof.
  intros Hj. unfold startIdleTransaction, txnAt. simpl. now apply nth_error_app1.
Qed.

(** The state of the listener once a click has passed the guard and
    interrupted the transaction in flight. *)
Lemma click_unblocked options w :
  routeTransactionInProgress (hub w) = false ->
  registerInteractionTransaction options w
  = let w1 :=
      match inflightInteractionTransaction w with
      | Some inflight =>
          mkWorld (endTransaction inflight
                     (setFinishReason inflight Reason.interactionInterrupted (hub w)))
                  (route w) (activeSpan w) None (startingUrl w)
      | None => w
      end in
    match truthy (Route.name (route w1)) with
    | None => w1
    | Some n =>
        mkWorld (fst (startIdleTransaction (hub w1)
                        (Ctx.mk n (Some "ui.action.click") None None None None None
                                None
                                (match Route.context (route w1) with
                                 | Some c => getSource c
                                 | None => Some "url"
                                 end)
                                None None (Some true))
                        (Options.idleTimeout options) (Options.finalTimeout options)
                        true (Options.heartbeatInterval options) false))
                (route w1) (activeSpan w1)
                (Some (length (transactions (hub w1)))) (startingUrl w1)
    end.
Proof.
  unfold routeTransactionInProgress, registerInteractionTransaction.
  intros H. rewrite H. cbv zeta.
  destruct (truthy (Route.name (route _))); reflexivity.
Qed.

Lemma click_unnamed :
  forall (options : BrowserTracingOptions) (w : World),
    routeTransactionInProgress (hub w) = false ->
    truthy (Route.name (route w)) = None ->
    inflightInteractionTransaction (registerInteractionTransaction options w) = None
    /\ length (transactions (hub (registerInteractionTransaction options w)))
       = length (transactions (hub w))
    /\ route (registerInteractionTransaction options w) = route w
    /\ activeSpan (registerInteractionTransaction options w) = activeSpan w.
Proof.
  intros options w Hg Hn. rewrite (click_unblocked options w Hg). cbv zeta.
  destruct (inflightInteractionTransaction w) as [i|] eqn:Ei; simpl; rewrite Hn.
  - simpl. rewrite length_endTransaction, length_setFinishReason. now repeat split.
  - now repeat split.
Qed.

(** X13. A click that the guard lets through while the route cell has no
    name (none yet, or the empty name) starts nothing: the hub holds as
    many transactions as before and the route cell and the tracker's span
    are untouched; the listener is left with no transaction in flight. *)
Theorem click_without_route_starts_nothing :
  forall (options : BrowserTracingOptions) (w : World),
    routeTransactionInProgress (hub w) = false ->
    truthy (Route.name (route w)) = None ->
    inflightInteractionTransaction (registerInteractionTransaction options w) = None
    /\ length (transactions (hub (registerInteractionTransaction options w)))
       = length (transactions (hub w))
    /\ route (registerInteractionTransaction options w) = route w
    /\ activeSpan (registerInteractionTransaction options w) = activeSpan w.
Proof.
  intros options w Hg Hn. exact (click_unnamed options w Hg Hn).
Qed.

Lemma click_without_route_starts_nothing_witness :
  inflightInteractionTransaction
    (registerInteractionTransaction DEFAULT_BROWSER_TRACING_OPTIONS
                                    (initialWorld None)) = None.
Proof.
  apply (click_without_route_starts_nothing DEFAULT_BROWSER_TRACING_OPTIONS
           (initialWorld None)); reflexivity.
Defined.

Lemma click_named :
  forall (options : BrowserTracingOptions) (w : World) (n : string),
    routeTransactionInProgress (hub w) = false ->
    truthy (Route.name (route w)) = Some n ->
    exists x,
      inflightInteractionTransaction (registerInteractionTransaction options w)
      = Some (length (transactions (hub w)))
      /\ getActiveTransaction (hub (registerInteractionTransaction options w))
         = Some (length (transactions (hub w)), x)
      /\ Txn.context x
         = Ctx.mk n (Some "ui.action.click") None None None None None None
                  (match Route.context (route w) with
                   | Some c => getSource c
                   | None => Some "url"
                   end)
                  None None (Some true)
      /\ Txn.delayAutoFinish x = false
      /\ Txn.idleTimeout x = Options.idleTimeout options
      /\ Txn.finalTimeout x = Options.finalTimeout options
      /\ Txn.heartbeatInterval x = Options.heartbeatInterval options
      /\ route (registerInteractionTransaction options w) = route w
      /\ activeSpan (registerInteractionTransaction options w) = activeSpan w.
Proof.
  intros options w n Hg Hn. rewrite (click_unblocked options w Hg). cbv zeta.
  set (w1 := match inflightInteractionTransaction w with
             | Some i => mkWorld _ _ _ _ _
             | None => w
             end).
  assert (H1 : route w1 = route w /\ activeSpan w1 = activeSpan w
               /\ length (transactions (hub w1)) = length (transactions (hub w))).
  { unfold w1. destruct (inflightInteractionTransaction w); simpl;
      [rewrite length_endTransaction, length_setFinishReason|]; now repeat split. }
  destruct H1 as (Hr & Ha & Hl). rewrite Hr, Hn, Ha, Hl.
  eexists. unfold getActiveTransaction, startIdleTransaction, txnAt. simpl.
  rewrite nth_error_app2, Hl, Nat.sub_diag by lia. simpl.
  repeat split.
Qed.

(** X14. A click that the guard lets through under a named route starts a
    transaction on the scope, named after the route, with op
    [ui.action.click], [trimEnd] set and the timeouts of the options, that
    does not wait for a finish signal, and keeps it as the one in flight.
    Its source is the source of the route context whenever there is a route
    context, also when that context has no source; [url] is used only
    without a route context. The route cell and the tracker's span stay. *)
Theorem click_starts_interaction_transaction :
  forall (options : BrowserTracingOptions) (w : World) (n : string),
    routeTransactionInProgress (hub w) = false ->
    truthy (Route.name (route w)) = Some n ->
    exists x,
      inflightInteractionTransaction (registerInteractionTransaction options w)
      = Some (length (transactions (hub w)))
      /\ getActiveTransaction (hub (registerInteractionTransaction options w))
         = Some (length (transactions (hub w)), x)
      /\ Txn.context x
         = Ctx.mk n (Some "ui.action.click") None None None None None None
                  (match Route.context (route w) with
                   | Some c => getSource c
                   | None => Some "url"
                   end)
                  None None (Some true)
      /\ Txn.delayAutoFinish x = false
      /\ Txn.idleTimeout x = Options.idleTimeout options
      /\ Txn.finalTimeout x = Options.finalTimeout options
      /\ Txn.heartbeatInterval x = Options.heartbeatInterval options
      /\ route (registerInteractionTransaction options w) = route w
      /\ activeSpan (registerInteractionTransaction options w) = activeSpan w.
Proof.
  intros options w n Hg Hn. exact (click_named options w n Hg Hn).
Qed.

Lemma click_starts_interaction_transaction_witness :
  exists x,
    getActiveTransaction
      (hub (registerInteractionTransaction DEFAULT_BROWSER_TRACING_OPTIONS
              (signals DEFAULT_BROWSER_TRACING_OPTIONS homePage
                       [NavigationSpan aboutContext; ClockFinish Reason.idleTimeout]
                       (initialWorld None))))
    = Some (1%nat, x)
    /\ Ctx.name (Txn.context x) = "/about"
    /\ Ctx.dataSource (Txn.context x) = Some "url".
Proof.
  destruct (click_starts_interaction_transaction DEFAULT_BROWSER_TRACING_OPTIONS
              (signals DEFAULT_BROWSER_TRACING_OPTIONS homePage
                       [NavigationSpan aboutContext; ClockFinish Reason.idleTimeout]
                       (initialWorld None))
              "/about" eq_refl eq_refl) as (x & _ & Hx & Hc & _).
  exists x. split; [exact Hx|]. rewrite Hc. split; reflexivity.
Defined.

(** X15. A click that the guard lets through ends the interaction
    transaction still in flight with reason [interactionInterrupted],
    whether or not a new one can be started. *)
Theorem click_interrupts_inflight_transaction :
  forall (options : BrowserTracingOptions) (w : World) (i : nat),
    routeTransactionInProgress (hub w) = false ->
    inflightInteractionTransaction w = Some i ->
    isLive (hub w) i = true ->
    finishReasonOf (hub (registerInteractionTransaction options w)) i
    = Some Reason.interactionInterrupted
    /\ inflightInteractionTransaction (registerInteractionTransaction options w)
       <> Some i.
Proof.
  intros options w i Hg Hi Hlive. rewrite (click_unblocked options w Hg). cbv zeta.
  rewrite Hi.
  cbn [route hub activeSpan startingUrl inflightInteractionTransaction].
  pose proof (interrupted_reason i Reason.interactionInterrupted (hub w) Hlive) as Hf.
  pose proof (isLive_bound _ _ Hlive) as Hb.
  set (h1 := endTransaction i (setFinishReason i Reason.interactionInterrupted (hub w))) in *.
  assert (Hl : length (transactions h1) = length (transactions (hub w))).
  { unfold h1. now rewrite length_endTransaction, length_setFinishReason. }
  destruct (truthy (Route.name (route w))) as [n|];
    cbn [route hub activeSpan startingUrl inflightInteractionTransaction].
  - split.
    + unfold finishReasonOf in *. rewrite startIdleTransaction_txnAt by lia.
      exact Hf.
    + intros E. injection E as E. lia.
  - split; [exact Hf|discriminate].
Qed.

Lemma click_interrupts_inflight_transaction_witness :
  finishReasonOf
    (hub (registerInteractionTransaction DEFAULT_BROWSER_TRACING_OPTIONS
            (registerInteractionTransaction DEFAULT_BROWSER_TRACING_OPTIONS
               (signals DEFAULT_BROWSER_TRACING_OPTIONS homePage
                  [NavigationSpan aboutContext; ClockFinish Reason.idleTimeout]
                  (initialWorld None))))) 1
  = Some Reason.interactionInterrupted.
Proof.
  apply (click_interrupts_inflight_transaction DEFAULT_BROWSER_TRACING_OPTIONS
           (registerInteractionTransaction DEFAULT_BROWSER_TRACING_OPTIONS
              (signals DEFAULT_BROWSER_TRACING_OPTIONS homePage
                 [NavigationSpan aboutContext; ClockFinish Reason.idleTimeout]
                 (initialWorld None))) 1%nat); reflexivity.
Defined.

(** * Further properties of construction and set-up *)

Lemma length_startRouteSpan o options page context w :
  length (transactions (hub (startRouteSpan o options page context w)))
  = S (length (transactions (hub w))).
Proof.
  unfold startRouteSpan.
  set (w1 := match activeSpan w with
             | Some span => mkWorld (endTransaction span (hub w)) _ _ _ _
             | None => w
             end).
  assert (Hlen : length (transactions (hub w1)) = length (transactions (hub w))).
  { unfold w1. destruct (activeSpan w); [apply length_endTransaction|reflexivity]. }
  rewrite <- Hlen. unfold _createRouteTransaction, startIdleTransaction. simpl.
  destruct (readyState page) as [state|]; simpl.
  - destruct (_ && isReady state); simpl;
      rewrite ?length_update, length_app; simpl; lia.
  - rewrite length_app. simpl. lia.
Qed.

(** X17. The history handler skips at most the first change: once it has
    been called for a change without a [from], whatever it did, the
    starting URL is forgotten, and the next change without a [from] starts
    a navigation span, which becomes the span held. *)
Theorem history_skip_applies_once :
  forall (options : BrowserTracingOptions) (page : Page) (p to1 to2 : string)
         (w : World),
    Options.instrumentNavigation options = Some true ->
    pathname page = Some p ->
    startingUrl (onHistoryChange options page to1 None w) = None
    /\ activeSpan (onHistoryChange options page to2 None
                                   (onHistoryChange options page to1 None w))
       = Some (length (transactions
                         (hub (onHistoryChange options page to1 None w))))
    /\ length (transactions
                 (hub (onHistoryChange options page to2 None
                                       (onHistoryChange options page to1 None w))))
       = S (length (transactions
                      (hub (onHistoryChange options page to1 None w)))).
Proof.
  intros options page p to1 to2 w Hn Hp.
  assert (H1 : startingUrl (onHistoryChange options page to1 None w) = None).
  { unfold onHistoryChange. rewrite Hp, Hn. cbn [isTrue].
    destruct (truthy (startingUrl w)) as [url|].
    - destruct (String.index 0 to1 url); [reflexivity|].
      unfold startBrowserTracingNavigationSpan, startNavigationSpan.
      now destruct (startRouteSpan_created "navigation" options page
                      (urlContext p "auto.navigation.browser")
                      (withStartingUrl w None))
        as (x & _ & _ & _ & _ & _ & _ & _ & _ & _ & _ & _ & _ & Hx).
    - unfold startBrowserTracingNavigationSpan, startNavigationSpan.
      now destruct (startRouteSpan_created "navigation" options page
                      (urlContext p "auto.navigation.browser")
                      (withStartingUrl w None))
        as (x & _ & _ & _ & _ & _ & _ & _ & _ & _ & _ & _ & _ & Hx). }
  split; [assumption|].
  set (w1 := onHistoryChange options page to1 None w) in *.
  assert (E : onHistoryChange options page to2 None w1
              = startRouteSpan "navigation" options page
                               (urlContext p "auto.navigation.browser")
                               (withStartingUrl w1 None)).
  { unfold onHistoryChange. now rewrite Hp, Hn, H1. }
  rewrite E. split.
  - destruct (startRouteSpan_created "navigation" options page
                (urlContext p "auto.navigation.browser") (withStartingUrl w1 None))
      as (x & Ha & _). rewrite Ha. reflexivity.
  - rewrite length_startRouteSpan. reflexivity.
Qed.

Lemma history_skip_applies_once_witness :
  startingUrl (onHistoryChange DEFAULT_BROWSER_TRACING_OPTIONS homePage "/home" None
                               (initialWorld (Some "https://example.org/home")))
  = None
  /\ activeSpan (onHistoryChange DEFAULT_BROWSER_TRACING_OPTIONS homePage "/home" None
                   (onHistoryChange DEFAULT_BROWSER_TRACING_OPTIONS homePage "/home"
                      None (initialWorld (Some "https://example.org/home"))))
     = Some 0%nat.
Proof.
  destruct (history_skip_applies_once DEFAULT_BROWSER_TRACING_OPTIONS homePage
              "/home" "/home" "/home"
              (initialWorld (Some "https://example.org/home")) eq_refl eq_refl)
    as (H1 & H2 & _).
  split; [exact H1|exact H2].
Defined.

(** * The tracker and the cache together *)

(** X18. After a start, a new interaction observed below capacity is
    attributed to the route just started: its record carries the name and
    the context now in the route cell, the transaction just started, and
    the user and replay id of the batch. If the started route has the empty
    name, the interaction is not stored at all. *)
Theorem interaction_attributed_to_started_route :
  forall (options : BrowserTracingOptions) (page : Page)
         (context : TransactionContext) (w : World) (o : string)
         (replay user_ : option string)
         (m : InteractionRouteNameMapping) (entry : PerformanceEntry) (i : Z),
    Entry.interactionId entry = Some i -> i <> 0 ->
    get i m = None ->
    isDuplicateFirstInput m entry = false ->
    (length m < MAX_INTERACTIONS)%nat ->
    exists c,
      route (startRouteSpan o options page context w)
      = Route.mk (Some (Ctx.name c)) (Some c)
      /\ (Ctx.name c <> "" ->
          get i (handleEntry (envOf (startRouteSpan o options page context w)
                                    replay user_) m entry)
          = Some (mkInteraction (Ctx.name c) (Entry.duration entry) c user_
                                (Some (length (transactions (hub w)))) replay
                                (Entry.startTime entry)))
      /\ (Ctx.name c = "" ->
          handleEntry (envOf (startRouteSpan o options page context w)
                             replay user_) m entry = m).
Proof.
  intros options page context w o replay user_ m entry i Ei Hi Hg Hd Hl.
  destruct (startRouteSpan_created o options page context w)
    as (x & Ha & Hx & Hs & Hr & _).
  set (w' := startRouteSpan o options page context w) in *.
  set (c := finalContextOf options page (withDefaultOp o context)) in *.
  exists c. split; [exact Hr|].
  assert (Hact : envActiveTransaction (envOf w' replay user_)
                 = Some (length (transactions (hub w)))).
  { unfold envOf, getActiveTransaction. cbn [envActiveTransaction].
    now rewrite Hs, Hx. }
  split.
  - intros Hn.
    assert (Hroute : routeOf (envOf w' replay user_) = Some (Ctx.name c, c)).
    { unfold routeOf, envOf. cbn [latestRoute]. rewrite Hr.
      cbn [Route.name Route.context truthy].
      destruct (String.eqb_spec (Ctx.name c) ""); [contradiction|reflexivity]. }
    rewrite (handleEntry_add _ m entry i _ _ Ei Hi Hg Hd Hroute Hl).
    rewrite get_put_same. unfold recordOf. rewrite Hact. reflexivity.
  - intros Hn.
    assert (Hnone : routeOf (envOf w' replay user_) = None).
    { unfold routeOf, envOf. cbn [latestRoute]. rewrite Hr.
      cbn [Route.name Route.context truthy]. rewrite Hn. reflexivity. }
    destruct (handleEntry_outcome (envOf w' replay user_) m entry)
      as [|j ? Ej _ Hj|j ? ? Ej _ _ Hr'|j ? ? ? Ej _ _ Hr']; try reflexivity;
      congruence.
Qed.

Lemma interaction_attributed_to_started_route_witness :
  exists c,
    route (startPageLoadSpan DEFAULT_BROWSER_TRACING_OPTIONS homePage homeContext
                             (initialWorld None))
    = Route.mk (Some (Ctx.name c)) (Some c)
    /\ Ctx.name c = "/home".
Proof.
  destruct (interaction_attributed_to_started_route
              DEFAULT_BROWSER_TRACING_OPTIONS homePage homeContext
              (initialWorld None) "pageload" None None [] (eventEntry 7 40 2) 7
              eq_refl ltac:(discriminate) eq_refl eq_refl
              ltac:(vm_compute; repeat constructor))
    as (c & Hr & _).
  exists c. split; [exact Hr|].
  assert (E : Route.name
                (route (startPageLoadSpan DEFAULT_BROWSER_TRACING_OPTIONS homePage
                                          homeContext (initialWorld None)))
              = Some "/home") by reflexivity.
  unfold startPageLoadSpan in E. rewrite Hr in E. injection E as E. exact E.
Defined.

Lemma click_route options w : route (registerInteractionTransaction options w) = route w.
Proof.
  destruct (routeTransactionInProgress (hub w)) eqn:Hg.
  - unfold routeTransactionInProgress in Hg. unfold registerInteractionTransaction.
    now rewrite Hg.
  - destruct (truthy (Route.name (route w))) as [n|] eqn:Hn.
    + now destruct (click_named options w n Hg Hn)
        as (x & _ & _ & _ & _ & _ & _ & _ & H & _).
    + now destruct (click_unnamed options w Hg Hn) as (_ & _ & H & _).
Qed.

Lemma inSync_startRouteSpan o options page context w :
  inSync (route (startRouteSpan o options page context w)).
Proof.
  destruct (startRouteSpan_created o options page context w)
    as (x & _ & _ & _ & Hr & _).
  right. eexists. exact Hr.
Qed.

Lemma inSync_act options page w a :
  inSync (route w) -> inSync (route (act options page w a)).
Proof.
  intros H. destruct a as [[context|context|reason|d]| |to from|]; simpl.
  - exact (inSync_startRouteSpan "navigation" options page context w).
  - exact (inSync_startRouteSpan "pageload" options page context w).
  - now destruct (activeSpan w).
  - now destruct (activeSpan w).
  - now rewrite click_route.
  - unfold onHistoryChange. destruct (pathname page); [|assumption].
    destruct (isTrue (Options.instrumentNavigation options)); [|assumption].
    destruct (match from with Some _ => _ | None => _ end); [assumption|].
    destruct (match from with Some f => _ | None => false end); [assumption|].
    exact (inSync_startRouteSpan "navigation" options page _ _).
  - unfold afterAllSetup. destruct (pathname page); [|assumption].
    destruct (isTrue (Options.instrumentPageLoad options)); [|assumption].
    exact (inSync_startRouteSpan "pageload" options page _ _).
Qed.

(** X19. Whatever reaches the integration (starts, clock ticks, clicks,
    history changes, the set-up), the route cell is either still empty or
    holds a context together with that context's name: name and context
    are never out of step. *)
Theorem route_cell_stays_in_sync :
  forall (options : BrowserTracingOptions) (page : Page) (href : option string)
         (l : list Action),
    route (run options page l (initialWorld href)) = Route.initial
    \/ exists c,
        route (run options page l (initialWorld href))
        = Route.mk (Some (Ctx.name c)) (Some c).
Proof.
  intros options page href l.
  assert (H : forall w, inSync (route w) -> inSync (route (run options page l w))).
  { unfold run. induction l as [|a t IH]; intros w Hw; simpl; [assumption|].
    apply IH. now apply inSync_act. }
  apply H. now left.
Qed.

Lemma length_heartbeatTick s d h :
  length (transactions (heartbeatTick s d h)) = length (transactions h).
Proof.
  unfold heartbeatTick. destruct (txnAt h s) as [x|]; [|reflexivity].
  destruct (Txn.ended x); [reflexivity|].
  destruct (_ <=? _)%nat; [rewrite length_finishWith|]; simpl; apply length_update.
Qed.

Lemma txnAt_finishWith_other i r h j :
  j <> i -> txnAt (finishWith i r h) j = txnAt h j.
Proof.
  intros Hne. unfold finishWith. destruct (txnAt h i) as [x|]; [|reflexivity].
  destruct (Txn.ended x); [reflexivity|]. unfold txnAt. simpl.
  apply nth_error_update_other. congruence.
Qed.

Lemma txnAt_interrupt_other i r h j :
  j <> i -> txnAt (endTransaction i (setFinishReason i r h)) j = txnAt h j.
Proof.
  intros Hne. unfold endTransaction.
  destruct (txnAt (setFinishReason i r h) i);
    [rewrite txnAt_finishWith_other by assumption|];
    unfold txnAt, setFinishReason; simpl; apply nth_error_update_other; congruence.
Qed.

Lemma separate_startRouteSpan o options page context w :
  separate w -> separate (startRouteSpan o options page context w).
Proof.
  intros (Ha & Hi & Hd).
  destruct (startRouteSpan_created o options page context w)
    as (x & Hact & _ & _ & _ & _ & _ & _ & _ & _ & _ & _ & Hin & _).
  pose proof (length_startRouteSpan o options page context w) as Hl.
  repeat split.
  - intros s Hs. rewrite Hl. rewrite Hact in Hs. injection Hs as <-. lia.
  - intros i Hi'. rewrite Hl. rewrite Hin in Hi'. specialize (Hi _ Hi'). lia.
  - intros s i Hs Hi'. rewrite Hact in Hs. injection Hs as <-.
    rewrite Hin in Hi'. specialize (Hi _ Hi'). lia.
Qed.

Lemma separate_click options w :
  separate w -> separate (registerInteractionTransaction options w).
Proof.
  intros (Ha & Hi & Hd).
  destruct (routeTransactionInProgress (hub w)) eqn:Hg.
  - unfold routeTransactionInProgress in Hg. unfold registerInteractionTransaction.
    rewrite Hg. now repeat split.
  - destruct (truthy (Route.name (route w))) as [n|] eqn:Hn.
    + destruct (click_named options w n Hg Hn)
        as (x & Hin & Hx & _ & _ & _ & _ & _ & _ & Hact).
      assert (Hb : (length (transactions (hub w))
                    < length (transactions
                                (hub (registerInteractionTransaction options w))))%nat).
      { unfold getActiveTransaction in Hx.
        destruct (scopeTransaction _) as [id|]; [|discriminate].
        destruct (txnAt _ id) as [y|] eqn:Ey; [|discriminate].
        injection Hx as -> _. apply nth_error_Some. unfold txnAt in Ey. congruence. }
      repeat split.
      * intros s Hs. rewrite Hact in Hs. specialize (Ha _ Hs). lia.
      * intros i Hi'. rewrite Hin in Hi'. injection Hi' as <-. assumption.
      * intros s i Hs Hi'. rewrite Hact in Hs. rewrite Hin in Hi'.
        injection Hi' as <-. specialize (Ha _ Hs). lia.
    + destruct (click_unnamed options w Hg Hn)
        as (Hin & Hl & _ & Hact).
      repeat split.
      * intros s Hs. rewrite Hl. apply Ha. congruence.
      * intros i Hi'. congruence.
      * intros s i _ Hi'. congruence.
Qed.

Lemma separate_act options page w a :
  separate w -> separate (act options page w a).
Proof.
  intros H. destruct a as [[context|context|reason|d]| |to from|]; simpl.
  - exact (separate_startRouteSpan "navigation" options page context w H).
  - exact (separate_startRouteSpan "pageload" options page context w H).
  - destruct (activeSpan w) as [s|] eqn:Es; [|assumption].
    destruct H as (Ha & Hi & Hd). unfold onHub. repeat split; simpl;
      rewrite ?length_finishWith; auto.
  - destruct (activeSpan w) as [s|] eqn:Es; [|assumption].
    destruct H as (Ha & Hi & Hd). unfold onHub. repeat split; simpl;
      rewrite ?length_heartbeatTick; auto.
  - now apply separate_click.
  - unfold onHistoryChange. destruct (pathname page); [|assumption].
    destruct (isTrue (Options.instrumentNavigation options)); [|assumption].
    destruct (match from with Some _ => _ | None => _ end); [exact H|].
    destruct (match from with Some f => _ | None => false end); [assumption|].
    exact (separate_startRouteSpan "navigation" options page _
                                   (withStartingUrl w None) H).
  - unfold afterAllSetup. destruct (pathname page); [|assumption].
    destruct (isTrue (Options.instrumentPageLoad options)); [|assumption].
    exact (separate_startRouteSpan "pageload" options page _ _ H).
Qed.

Lemma separate_run options page l w :
  separate w -> separate (run options page l w).
Proof.
  unfold run. revert w. induction l as [|a t IH]; intros w Hw; simpl; [assumption|].
  apply IH. now apply separate_act.
Qed.

(** X20. Whatever the integration has been through, a click never touches
    the span the tracker holds, blocked or not: the transaction behind it
    is after the click what it was before, and the tracker still holds
    it. *)
Theorem click_never_touches_tracker_span :
  forall (options : BrowserTracingOptions) (page : Page) (href : option string)
         (l : list Action) (s : nat),
    activeSpan (run options page l (initialWorld href)) = Some s ->
    txnAt (hub (registerInteractionTransaction options
                  (run options page l (initialWorld href)))) s
    = txnAt (hub (run options page l (initialWorld href))) s
    /\ activeSpan (registerInteractionTransaction options
                     (run options page l (initialWorld href))) = Some s.
Proof.
  intros options page href l s Hs.
  set (w := run options page l (initialWorld href)) in *.
  assert (Hsep : separate w).
  { apply separate_run. repeat split; simpl; intros; discriminate. }
  destruct Hsep as (Ha & Hi & Hd). specialize (Ha _ Hs).
  destruct (routeTransactionInProgress (hub w)) eqn:Hg.
  - unfold routeTransactionInProgress in Hg. unfold registerInteractionTransaction.
    rewrite Hg. now split.
  - rewrite (click_unblocked options w Hg). cbv zeta.
    set (w1 := match inflightInteractionTransaction w with
               | Some i => mkWorld _ _ _ _ _
               | None => w
               end).
    assert (H1 : txnAt (hub w1) s = txnAt (hub w) s
                 /\ length (transactions (hub w1)) = length (transactions (hub w))
                 /\ activeSpan w1 = Some s).
    { unfold w1. destruct (inflightInteractionTransaction w) as [i|] eqn:Ei;
        cbn [hub activeSpan].
      - rewrite txnAt_interrupt_other by (now apply Hd).
        now rewrite length_endTransaction, length_setFinishReason.
      - now repeat split. }
    destruct H1 as (Ht & Hl & Hact).
    destruct (truthy (Route.name (route w1))); cbn [hub activeSpan].
    + rewrite startIdleTransaction_txnAt by lia. now split.
    + now split.
Qed.

Lemma click_never_touches_tracker_span_witness :
  activeSpan
    (registerInteractionTransaction DEFAULT_BROWSER_TRACING_OPTIONS
       (run DEFAULT_BROWSER_TRACING_OPTIONS homePage
            [Emit (NavigationSpan aboutContext); Emit (ClockFinish Reason.idleTimeout);
             Clicked] (initialWorld None)))
  = Some 0%nat.
Proof.
  apply (click_never_touches_tracker_span DEFAULT_BROWSER_TRACING_OPTIONS homePage
           None
           [Emit (NavigationSpan aboutContext); Emit (ClockFinish Reason.idleTimeout);
            Clicked] 0%nat).
  reflexivity.
Defined.

(** * Automatic spans *)

(** X21. The set-up starts the page load span only when
    [instrumentPageLoad] is set and the window has a location; then (with
    no hook) the route is the location's path, the context has op
    [pageload], origin [auto.pageload.browser] and source [url], and the
    transaction waits for the finish signal. Otherwise the set-up leaves
    the state as it is. *)
Theorem setup_starts_pageload_span :
  forall (options : BrowserTracingOptions) (page : Page) (w : World),
    (isTrue (Options.instrumentPageLoad options) = false \/ pathname page = None ->
     afterAllSetup options page w = w)
    /\ (forall p,
           Options.instrumentPageLoad options = Some true ->
           pathname page = Some p ->
           Options.beforeStartSpan options = None ->
           exists c x,
             route (afterAllSetup options page w) = Route.mk (Some p) (Some c)
             /\ Ctx.op c = Some "pageload"
             /\ Ctx.origin c = Some "auto.pageload.browser"
             /\ getSource c = Some "url"
             /\ getActiveTransaction (hub (afterAllSetup options page w))
                = Some (length (transactions (hub w)), x)
             /\ Txn.context x = c
             /\ Txn.delayAutoFinish x = true).
Proof.
  intros options page w. split.
  - intros [H|H]; unfold afterAllSetup; rewrite H; [|reflexivity].
    now destruct (pathname page).
  - intros p Hi Hp Hb. unfold afterAllSetup. rewrite Hp, Hi. cbn [isTrue].
    unfold startBrowserTracingPageLoadSpan, startPageLoadSpan.
    destruct (startRouteSpan_created "pageload" options page
                (urlContext p "auto.pageload.browser") w)
      as (x & _ & Hx & Hs & Hr & Hc & _ & _ & _ & Hd & _).
    exists (finalContextOf options page
              (withDefaultOp "pageload" (urlContext p "auto.pageload.browser"))), x.
    rewrite Hr. unfold getActiveTransaction. rewrite Hs, Hx, Hd.
    unfold finalContextOf. rewrite Hb. cbv zeta. rewrite String.eqb_refl.
    rewrite Hc. unfold finalContextOf. rewrite Hb. cbv zeta.
    rewrite String.eqb_refl. now repeat split.
Qed.

Lemma setup_starts_pageload_span_witness :
  exists c x,
    route (afterAllSetup DEFAULT_BROWSER_TRACING_OPTIONS homePage (initialWorld None))
    = Route.mk (Some "/home") (Some c)
    /\ Txn.context x = c
    /\ Txn.delayAutoFinish x = true.
Proof.
  destruct (proj2 (setup_starts_pageload_span DEFAULT_BROWSER_TRACING_OPTIONS
                     homePage (initialWorld None))
              "/home" eq_refl eq_refl eq_refl)
    as (c & x & Hr & _ & _ & _ & _ & Hc & Hd).
  exists c, x. split; [exact Hr|]. split; [exact Hc|exact Hd].
Defined.

(** X22. A history change starts a navigation span only when
    [instrumentNavigation] is set and the window has a location, and never
    for a change from a URL to itself. When [from] differs from [to] the
    span is started (with no hook) under the location's path, not under
    [to], with op [navigation], origin [auto.navigation.browser] and source
    [url], and the starting URL is forgotten. *)
Theorem history_change_starts_navigation_span :
  forall (options : BrowserTracingOptions) (page : Page) (to : string)
         (from : option string) (w : World),
    (isTrue (Options.instrumentNavigation options) = false \/ pathname page = None
     \/ from = Some to ->
     onHistoryChange options page to from w = w)
    /\ (forall p f,
           Options.instrumentNavigation options = Some true ->
           pathname page = Some p ->
           from = Some f -> f <> to ->
           Options.beforeStartSpan options = None ->
           exists c,
             route (onHistoryChange options page to from w)
             = Route.mk (Some p) (Some c)
             /\ Ctx.op c = Some "navigation"
             /\ Ctx.origin c = Some "auto.navigation.browser"
             /\ getSource c = Some "url"
             /\ activeSpan (onHistoryChange options page to from w)
                = Some (length (transactions (hub w)))
             /\ startingUrl (onHistoryChange options page to from w) = None).
Proof.
  intros options page to from w. split.
  - intros [H|[H|H]]; unfold onHistoryChange.
    + rewrite H. now destruct (pathname page).
    + now rewrite H.
    + rewrite H, String.eqb_refl.
      destruct (pathname page); [|reflexivity].
      now destruct (isTrue (Options.instrumentNavigation options)).
  - intros p f Hi Hp Hf Hne Hb. unfold onHistoryChange. rewrite Hp, Hi, Hf.
    cbn [isTrue].
    destruct (String.eqb_spec f to); [contradiction|].
    unfold startBrowserTracingNavigationSpan, startNavigationSpan.
    destruct (startRouteSpan_created "navigation" options page
                (urlContext p "auto.navigation.browser") (withStartingUrl w None))
      as (x & Ha & _ & _ & Hr & _ & _ & _ & _ & _ & _ & _ & _ & Hu).
    eexists. rewrite Hr, Ha, Hu. unfold finalContextOf. rewrite Hb. cbv zeta.
    rewrite String.eqb_refl. now repeat split.
Qed.

Lemma history_change_starts_navigation_span_witness :
  exists c,
    route (onHistoryChange DEFAULT_BROWSER_TRACING_OPTIONS homePage "/about"
                           (Some "/") (initialWorld None))
    = Route.mk (Some "/home") (Some c)
    /\ Ctx.op c = Some "navigation".
Proof.
  destruct (proj2 (history_change_starts_navigation_span
                     DEFAULT_BROWSER_TRACING_OPTIONS homePage "/about" (Some "/")
                     (initialWorld None))
              "/home" "/" eq_refl eq_refl eq_refl ltac:(discriminate) eq_refl)
    as (c & Hr & Ho & _).
  exists c. split; [exact Hr|exact Ho].
Defined.

(** X23. [getSource] yields a non-empty source exactly when the
    attributes, the data or the metadata of the context hold one, and then
    the first of these in this order. *)
Theorem getSource_prefers_attributes_then_data :
  forall c : TransactionContext,
    truthy (getSource c)
    = match truthy (Ctx.attributesSource c), truthy (Ctx.dataSource c) with
      | Some s, _ => Some s
      | None, Some s => Some s
      | None, None => truthy (Ctx.metadataSource c)
      end.
Proof.
  intros c. unfold getSource, orElse, truthy.
  destruct (Ctx.attributesSource c) as [a|]; [destruct (String.eqb a "") eqn:Ea|];
    (destruct (Ctx.dataSource c) as [d|]; [destruct (String.eqb d "") eqn:Ed|]);
    rewrite ?Ea, ?Ed; try reflexivity.
Qed.

(** * Supersession *)

Lemma ofSpans_app R h1 h2 : ofSpans R (h1 ++ h2) = ofSpans R h1 ++ ofSpans R h2.
Proof. apply filter_app. Qed.

Lemma ofSpans_grow R new h :
  (forall e, In e h -> eventSpan e <> new) -> ofSpans (R ++ [new]) h = ofSpans R h.
Proof.
  intros H. unfold ofSpans. apply filter_ext_in. intros e He.
  rewrite existsb_app. simpl. rewrite orb_false_r.
  destruct (Nat.eqb_spec (eventSpan e) new) as [E|_]; [|apply orb_false_r].
  exfalso. exact (H e He E).
Qed.

Lemma ofSpans_none R h :
  (forall e, In e h -> ~ In (eventSpan e) R) -> ofSpans R h = [].
Proof.
  intros H. induction h as [|e t IH]; simpl; [reflexivity|].
  destruct (existsb (Nat.eqb (eventSpan e)) R) eqn:E.
  - apply existsb_exists in E as (j & Hj & Ej). apply Nat.eqb_eq in Ej.
    exfalso. apply (H e); [now left|]. now rewrite Ej.
  - apply IH. intros e' He'. apply H. now right.
Qed.

Lemma ofSpans_one R e :
  In (eventSpan e) R -> ofSpans R [e] = [e].
Proof.
  intros H. unfold ofSpans. simpl.
  assert (E : existsb (Nat.eqb (eventSpan e)) R = true).
  { apply existsb_exists. exists (eventSpan e). split; [assumption|apply Nat.eqb_refl]. }
  now rewrite E.
Qed.

Lemma prefixes_app {A : Type} (Q : list A -> Prop) h ext :
  (forall n, Q (firstn n h)) ->
  (forall k, Q (h ++ firstn k ext)) ->
  forall n, Q (firstn n (h ++ ext)).
Proof.
  intros Hh He n. rewrite firstn_app.
  destruct (Nat.le_gt_cases n (length h)) as [Hn|Hn].
  - replace (n - length h)%nat with 0%nat by lia. simpl. rewrite app_nil_r. apply Hh.
  - rewrite firstn_all2 by lia. apply He.
Qed.

Lemma In_firstn {A : Type} (x : A) n l : In x (firstn n l) -> In x l.
Proof.
  intros H. rewrite <- (firstn_skipn n l). apply in_or_app. now left.
Qed.

Lemma activeLive_length w : (length (activeLive w) <= 1)%nat.
Proof.
  unfold activeLive. destruct (activeSpan w) as [s|]; [|simpl; lia].
  destruct (isLive (hub w) s); simpl; lia.
Qed.

Lemma finishWith_endsOrKeeps s r h : endsOrKeeps s h (finishWith s r h).
Proof.
  split; [apply length_finishWith|]. split.
  - intros j x'. unfold finishWith.
    destruct (txnAt h s) as [y|] eqn:Ey; [|intros H; now exists x'].
    destruct (Txn.ended y) eqn:Ee; [intros H; now exists x'|].
    unfold txnAt in *. simpl.
    destruct (Nat.eq_dec s j) as [->|Hne].
    + rewrite nth_error_update_same, Ey. simpl. intros H. injection H as <-.
      now exists y.
    + rewrite nth_error_update_other by assumption. intros H. now exists x'.
  - destruct (isLive h s) eqn:El.
    + right. exists r. split; [reflexivity|]. split.
      * now rewrite events_finishWith, El.
      * apply isLive_finishWith.
    + left. split.
      * now rewrite events_finishWith, El.
      * intros j. rewrite isLive_finishWith.
        destruct (Nat.eqb_spec j s) as [->|_]; [now rewrite El|apply andb_true_r].
Qed.

Lemma heartbeatTick_endsOrKeeps s d h : endsOrKeeps s h (heartbeatTick s d h).
Proof.
  assert (Hkeep : endsOrKeeps s h h).
  { split; [reflexivity|]. split; [intros j x' H; now exists x'|]. left. now split. }
  unfold heartbeatTick.
  destruct (txnAt h s) as [x|] eqn:Ex; [|exact Hkeep].
  destruct (Txn.ended x) eqn:Ee; [exact Hkeep|].
  set (misses := if d =? Txn.recordedDuration x
                 then S (Txn.heartbeatMissCount x) else 0%nat).
  set (h1 := mkHub (update (transactions h) s (fun y => Txn.withBeat y d misses))
                   (scopeTransaction h) (events h)).
  assert (Hl : length (transactions h1) = length (transactions h)).
  { unfold h1. simpl. apply length_update. }
  assert (Hr : forall j x', txnAt h1 j = Some x' ->
                            exists y, txnAt h j = Some y
                                      /\ Txn.finishReason x' = Txn.finishReason y).
  { intros j x'. unfold txnAt, h1. simpl.
    destruct (Nat.eq_dec s j) as [->|Hne].
    - rewrite nth_error_update_same. unfold txnAt in Ex. rewrite Ex. simpl.
      intros H. injection H as <-. now exists x.
    - rewrite nth_error_update_other by assumption. intros H. now exists x'. }
  assert (Hlive : forall j, isLive h1 j = isLive h j).
  { intros j. apply isLive_update_neutral, neutral_withBeat. }
  destruct (HEARTBEAT_MISSES <=? misses)%nat.
  - destruct (finishWith_endsOrKeeps s Reason.heartbeatFailed h1) as (Fl & Fr & Fe).
    split; [congruence|]. split.
    + intros j x' H. destruct (Fr j x' H) as (y & Hy & Ey).
      destruct (Hr j y Hy) as (z & Hz & Ez). exists z. split; [assumption|congruence].
    + destruct Fe as [[Fev Fli]|(r & Fl1 & Fev & Fli)].
      * left. split; [exact Fev|]. intros j. now rewrite Fli.
      * right. exists r. rewrite <- Hlive. split; [assumption|]. split; [exact Fev|].
        intros j. now rewrite Fli, Hlive.
  - split; [assumption|]. split; [assumption|]. left. now split.
Qed.

Lemma Tracked_endsOrKeeps w R s h' :
  Tracked w R -> activeSpan w = Some s -> endsOrKeeps s (hub w) h' ->
  Tracked (mkWorld h' (route w) (activeSpan w) (inflightInteractionTransaction w)
                   (startingUrl w)) R.
Proof.
  intros T Hs (Hl & Hr & He).
  assert (HsR : In s R) by now apply (tr_active _ _ T).
  assert (Hlive : forall j, isLive h' j = true -> isLive (hub w) j = true).
  { intros j Hj. destruct He as [[_ E]|(r & _ & _ & E)]; rewrite E in Hj;
      [assumption|]. now apply andb_prop in Hj. }
  constructor; simpl.
  - intros j Hj. rewrite Hl. now apply (tr_bound _ _ T).
  - apply (tr_inflight _ _ T).
  - intros i Hi. rewrite Hl. now apply (tr_inflight_bound _ _ T).
  - apply (tr_active _ _ T).
  - intros j Hj Hlj. apply (tr_live _ _ T); auto.
  - intros j x' Hj Hx. destruct (Hr j x' Hx) as (x & Hx0 & E).
    rewrite E. now apply (tr_reasons _ _ T j).
  - intros e Hin. rewrite Hl.
    destruct He as [[E _]|(r & _ & E & _)]; rewrite E in Hin.
    + now apply (tr_events _ _ T).
    + apply in_app_or in Hin as [Hin|[<-|[]]]; [now apply (tr_events _ _ T)|].
      simpl. now apply (tr_bound _ _ T).
  - unfold activeLive. simpl. rewrite Hs.
    pose proof (tr_current _ _ T) as Hc. unfold activeLive in Hc. rewrite Hs in Hc.
    destruct He as [[E El]|(r & Hls & E & El)]; rewrite E.
    + now rewrite El.
    + rewrite ofSpans_app, currentAfter_app, Hc, Hls, (ofSpans_one R) by assumption.
      rewrite El, Hls, Nat.eqb_refl. simpl. now rewrite Nat.eqb_refl.
  - destruct He as [[E _]|(r & Hls & E & El)]; rewrite E; [apply (tr_one _ _ T)|].
    apply (prefixes_app
             (fun p => (length (currentAfter (ofSpans R p) []) <= 1)%nat));
      [apply (tr_one _ _ T)|].
    intros [|k]; simpl.
    + rewrite app_nil_r, (tr_current _ _ T). apply activeLive_length.
    + rewrite firstn_nil, ofSpans_app, currentAfter_app, (tr_current _ _ T).
      rewrite (ofSpans_one R) by assumption. unfold activeLive. rewrite Hs, Hls.
      simpl. rewrite Nat.eqb_refl. simpl. lia.
Qed.

Lemma createRouteTransaction_reason options page context w x :
  txnAt (hub (fst (_createRouteTransaction options page context w)))
        (length (transactions (hub w))) = Some x ->
  Txn.finishReason x = Reason.external.
Proof.
  unfold _createRouteTransaction, startIdleTransaction, txnAt. simpl.
  destruct (readyState page) as [state|]; simpl.
  - destruct (_ && isReady state); simpl.
    + rewrite nth_error_update_same, nth_error_app2, Nat.sub_diag by lia. simpl.
      intros H. now injection H as <-.
    + rewrite nth_error_app2, Nat.sub_diag by lia. simpl.
      intros H. now injection H as <-.
  - rewrite nth_error_app2, Nat.sub_diag by lia. simpl.
    intros H. now injection H as <-.
Qed.

(** The events a start appends when the tracker is in step with its
    spans: the end of the span held, if it is live, then the new span. *)
Lemma Tracked_startRouteSpan o options page context w R :
  Tracked w R ->
  Tracked (startRouteSpan o options page context w)
          (R ++ [length (transactions (hub w))])
  /\ events (hub (startRouteSpan o options page context w))
     = events (hub w)
       ++ match activeSpan w with
          | Some s => if isLive (hub w) s then [Finished s Reason.external] else []
          | None => []
          end
       ++ [Started (length (transactions (hub w)))]
  /\ forall s, activeSpan w = Some s -> isLive (hub w) s = true ->
               finishReasonOf (hub (startRouteSpan o options page context w)) s
               = Some Reason.external
               /\ isLive (hub (startRouteSpan o options page context w)) s = false.
Proof.
  intros T.
  pose proof (length_startRouteSpan o options page context w) as Hlen'.
  destruct (startRouteSpan_created o options page context w)
    as (x' & Hact' & Hx' & _ & _ & _ & _ & _ & _ & _ & _ & _ & Hin' & _).
  revert Hlen' Hact' Hx' Hin'. unfold startRouteSpan.
  set (w1 := match activeSpan w with
             | Some span => mkWorld (endTransaction span (hub w)) _ _ _ _
             | None => w
             end).
  (* the world after the span held has been ended *)
  assert (H1 : Tracked w1 R
               /\ (forall j, In j R -> isLive (hub w1) j = false)
               /\ length (transactions (hub w1)) = length (transactions (hub w))
               /\ events (hub w1)
                  = events (hub w)
                    ++ match activeSpan w with
                       | Some s => if isLive (hub w) s
                                   then [Finished s Reason.external] else []
                       | None => []
                       end
               /\ (forall s, activeSpan w = Some s -> isLive (hub w) s = true ->
                             finishReasonOf (hub w1) s = Some Reason.external)
               /\ activeLive w1 = []).
  { unfold w1. destruct (activeSpan w) as [s|] eqn:Es.
    - assert (HsR : In s R) by now apply (tr_active _ _ T).
      assert (Eend : endTransaction s (hub w) = finishWith s Reason.external (hub w)).
      { unfold endTransaction. destruct (txnAt (hub w) s) as [x|] eqn:Ex.
        - now rewrite (tr_reasons _ _ T s x HsR Ex).
        - unfold finishWith. now rewrite Ex. }
      rewrite Eend.
      pose proof (Tracked_endsOrKeeps w R s _ T Es
                    (finishWith_endsOrKeeps s Reason.external (hub w))) as T1.
      rewrite Es in T1.
      assert (Hdead : forall j, In j R ->
                                isLive (finishWith s Reason.external (hub w)) j = false).
      { intros j Hj. rewrite isLive_finishWith.
        destruct (isLive (hub w) j) eqn:E; [|reflexivity].
        apply (tr_live _ _ T j Hj) in E. rewrite Es in E. injection E as ->.
        now rewrite Nat.eqb_refl. }
      split; [exact T1|]. split; [exact Hdead|]. simpl.
      split; [apply length_finishWith|]. split.
      + rewrite events_finishWith. destruct (isLive (hub w) s);
          [reflexivity|now rewrite app_nil_r].
      + split.
        * intros s' E Hlive. injection E as <-. now apply finishReasonOf_finishWith.
        * unfold activeLive. simpl. now rewrite (Hdead s HsR).
    - split; [exact T|]. split.
      + intros j Hj. destruct (isLive (hub w) j) eqn:E; [|reflexivity].
        apply (tr_live _ _ T j Hj) in E. congruence.
      + split; [reflexivity|]. split; [now rewrite app_nil_r|].
        split; [discriminate|]. unfold activeLive. now rewrite Es. }
  destruct H1 as (T1 & Hdead & Hlen & Hev & Hfin & Hal).
  pose proof (createRouteTransaction_spec options page (withDefaultOp o context) w1)
    as Hspec.
  pose proof (createRouteTransaction_txnAt options page (withDefaultOp o context) w1)
    as Ht.
  pose proof (createRouteTransaction_reason options page (withDefaultOp o context) w1)
    as Hreason.
  destruct (_createRouteTransaction options page (withDefaultOp o context) w1)
    as [w2 created].
  cbv zeta in Hspec. simpl in Hspec, Ht, Hreason.
  destruct Hspec as (Hid & Hev2 & Hlive2 & _ & _).
  rewrite Hlen in *. subst created. simpl.
  set (len := length (transactions (hub w))) in *.
  intros Hlen' Hact' Hx' Hin'.
  assert (Hold : forall e, In e (events (hub w1)) -> (eventSpan e < len)%nat).
  { intros e He. rewrite <- Hlen. now apply (tr_events _ _ T1). }
  assert (Hgrow : forall h, (forall e, In e h -> In e (events (hub w1))) ->
                            ofSpans (R ++ [len]) h = ofSpans R h).
  { intros h Hh. apply ofSpans_grow. intros e He. specialize (Hold e (Hh e He)). lia. }
  assert (HR : forall j, In j R -> (j < len)%nat).
  { intros j Hj. rewrite <- Hlen. now apply (tr_bound _ _ T1). }
  assert (Hcur : currentAfter (ofSpans (R ++ [len]) (events (hub w2))) [] = [len]).
  { rewrite Hev2, ofSpans_app, currentAfter_app.
    rewrite (Hgrow (events (hub w1))) by (intros e He; exact He).
    rewrite (tr_current _ _ T1), Hal.
    rewrite (ofSpans_one (R ++ [len])); [reflexivity|].
    simpl. apply in_or_app. right. now left. }
  split; [|split].
  - constructor; simpl.
    + intros j Hj. rewrite Hlen'. apply in_app_or in Hj as [Hj|[<-|[]]];
        [specialize (HR j Hj)|]; lia.
    + intros i Hi Hj. rewrite Hin' in Hi.
      pose proof (tr_inflight_bound _ _ T i Hi) as Hb.
      apply in_app_or in Hj as [Hj|[<-|[]]];
        [exact (tr_inflight _ _ T i Hi Hj)|unfold len in Hb; lia].
    + intros i Hi. rewrite Hin' in Hi. rewrite Hlen'.
      pose proof (tr_inflight_bound _ _ T i Hi). lia.
    + intros s Hs. injection Hs as <-. apply in_or_app. right. now left.
    + intros j Hj Hlj. apply in_app_or in Hj as [Hj|[<-|[]]]; [|reflexivity].
      rewrite Hlive2, (Hdead j Hj), orb_false_r in Hlj.
      apply Nat.eqb_eq in Hlj. now subst j.
    + intros j x Hj Hx. apply in_app_or in Hj as [Hj|[<-|[]]].
      * rewrite Ht in Hx by (now apply HR).
        now apply (tr_reasons _ _ T1 j).
      * now apply Hreason.
    + intros e He. rewrite Hlen'. rewrite Hev2 in He.
      apply in_app_or in He as [He|[<-|[]]]; [specialize (Hold e He); lia|simpl; lia].
    + unfold activeLive. simpl. rewrite Hcur, Hlive2, Nat.eqb_refl. reflexivity.
    + rewrite Hev2.
      apply (prefixes_app
               (fun p => (length (currentAfter (ofSpans (R ++ [len]) p) []) <= 1)%nat)).
      * intros n. rewrite Hgrow.
        -- apply (tr_one _ _ T1).
        -- intros e He. eapply In_firstn. exact He.
      * intros [|k]; simpl.
        -- rewrite app_nil_r.
           rewrite (Hgrow (events (hub w1))) by (intros e He; exact He).
           rewrite (tr_current _ _ T1), Hal. simpl. lia.
        -- rewrite firstn_nil, <- Hev2, Hcur. simpl. lia.
  - rewrite Hev2, Hev. now rewrite <- app_assoc.
  - intros s Es Hlive. pose proof (isLive_bound _ _ Hlive) as Hb.
    split.
    + unfold finishReasonOf. rewrite Ht by exact Hb.
      apply (Hfin s Es Hlive).
    + rewrite Hlive2.
      rewrite (Hdead s (tr_active _ _ T s Es)), orb_false_r.
      apply Nat.eqb_neq. unfold len. lia.
Qed.

(** What a click that passes the guard does to the hub: it appends events
    about the transaction in flight and about the one it starts only, and
    leaves every other transaction as it is. *)
Lemma click_effect options w :
  routeTransactionInProgress (hub w) = false ->
  activeSpan (registerInteractionTransaction options w) = activeSpan w
  /\ (forall j, inflightInteractionTransaction w <> Some j ->
                (j < length (transactions (hub w)))%nat ->
                txnAt (hub (registerInteractionTransaction options w)) j
                = txnAt (hub w) j)
  /\ exists ext,
      events (hub (registerInteractionTransaction options w))
      = events (hub w) ++ ext
      /\ ((length (transactions (hub (registerInteractionTransaction options w)))
           = length (transactions (hub w))
           /\ inflightInteractionTransaction (registerInteractionTransaction options w)
              = None
           /\ forall e, In e ext ->
                        inflightInteractionTransaction w = Some (eventSpan e))
          \/ (length (transactions (hub (registerInteractionTransaction options w)))
              = S (length (transactions (hub w)))
              /\ inflightInteractionTransaction
                   (registerInteractionTransaction options w)
                 = Some (length (transactions (hub w)))
              /\ forall e, In e ext ->
                           inflightInteractionTransaction w = Some (eventSpan e)
                           \/ eventSpan e = length (transactions (hub w)))).
Proof.
  intros Hg. rewrite (click_unblocked options w Hg). cbv zeta.
  set (w1 := match inflightInteractionTransaction w with
             | Some i => mkWorld _ _ _ _ _
             | None => w
             end).
  assert (H1 : activeSpan w1 = activeSpan w
               /\ length (transactions (hub w1)) = length (transactions (hub w))
               /\ (forall j, inflightInteractionTransaction w <> Some j ->
                             txnAt (hub w1) j = txnAt (hub w) j)
               /\ exists ext1,
                   events (hub w1) = events (hub w) ++ ext1
                   /\ forall e, In e ext1 ->
                                inflightInteractionTransaction w = Some (eventSpan e)).
  { unfold w1. destruct (inflightInteractionTransaction w) as [i|] eqn:Ei;
      cbn [hub activeSpan].
    - split; [reflexivity|].
      split; [now rewrite length_endTransaction, length_setFinishReason|].
      split; [intros j Hj; apply txnAt_interrupt_other; congruence|].
      unfold endTransaction.
      destruct (txnAt (setFinishReason i Reason.interactionInterrupted (hub w)) i)
        as [x|].
      + rewrite events_finishWith.
        destruct (isLive _ i); simpl.
        * eexists. split; [reflexivity|]. intros e [<-|[]]. reflexivity.
        * exists []. split; [now rewrite app_nil_r|]. intros e [].
      + exists []. simpl. split; [now rewrite app_nil_r|]. intros e [].
    - split; [reflexivity|]. split; [reflexivity|]. split; [reflexivity|].
      exists []. split; [now rewrite app_nil_r|]. intros e []. }
  destruct H1 as (Ha & Hl & Ht & ext1 & Hev & Hext).
  destruct (truthy (Route.name (route w1))) as [n|];
    cbn [hub activeSpan inflightInteractionTransaction].
  - split; [exact Ha|]. split.
    + intros j Hj Hb. rewrite startIdleTransaction_txnAt by lia. now apply Ht.
    + exists (ext1 ++ [Started (length (transactions (hub w)))]). split.
      * unfold startIdleTransaction. simpl. now rewrite Hev, Hl, <- app_assoc.
      * right. split.
        -- unfold startIdleTransaction. simpl. rewrite length_app, Hl. simpl. lia.
        -- split; [now rewrite Hl|].
           intros e He. apply in_app_or in He as [He|[<-|[]]];
             [left; now apply Hext|right; reflexivity].
  - split; [exact Ha|]. split.
    + intros j Hj _. now apply Ht.
    + exists ext1. split; [exact Hev|]. left. split; [exact Hl|]. split.
      * unfold w1. destruct (inflightInteractionTransaction w) eqn:E;
          [reflexivity|exact E].
      * exact Hext.
Qed.

Lemma Tracked_click options w R :
  Tracked w R -> Tracked (registerInteractionTransaction options w) R.
Proof.
  intros T. destruct (routeTransactionInProgress (hub w)) eqn:Hg.
  - unfold routeTransactionInProgress in Hg. unfold registerInteractionTransaction.
    now rewrite Hg.
  - destruct (click_effect options w Hg) as (Ha & Ht & ext & Hev & Hcase).
    set (w' := registerInteractionTransaction options w) in *.
    assert (Hsame : forall j, In j R -> txnAt (hub w') j = txnAt (hub w) j).
    { intros j Hj. apply Ht; [|now apply (tr_bound _ _ T)].
      intros E. exact (tr_inflight _ _ T j E Hj). }
    assert (Hle : (length (transactions (hub w)) <= length (transactions (hub w')))%nat)
      by (destruct Hcase as [(E & _)|(E & _)]; lia).
    assert (Hext : forall e, In e ext ->
                             ~ In (eventSpan e) R
                             /\ (eventSpan e < length (transactions (hub w')))%nat).
    { intros e He. destruct Hcase as [(E & _ & Hx)|(E & _ & Hx)].
      - specialize (Hx e He). split; [exact (tr_inflight _ _ T _ Hx)|].
        rewrite E. exact (tr_inflight_bound _ _ T _ Hx).
      - destruct (Hx e He) as [Hi|Hn].
        + split; [exact (tr_inflight _ _ T _ Hi)|].
          pose proof (tr_inflight_bound _ _ T _ Hi). lia.
        + split; [|lia]. intros Hin. pose proof (tr_bound _ _ T _ Hin). lia. }
    assert (Hfilter : forall k, ofSpans R (events (hub w) ++ firstn k ext)
                                = ofSpans R (events (hub w))).
    { intros k. rewrite ofSpans_app, (ofSpans_none R (firstn k ext)).
      - apply app_nil_r.
      - intros e He. apply Hext. eapply In_firstn. exact He. }
    assert (Hlive : forall j, In j R -> isLive (hub w') j = isLive (hub w) j).
    { intros j Hj. unfold isLive. now rewrite Hsame. }
    constructor.
    + intros j Hj. pose proof (tr_bound _ _ T j Hj). lia.
    + intros i Hi Hin. destruct Hcase as [(_ & E & _)|(_ & E & _)];
        rewrite E in Hi; [discriminate|]. injection Hi as <-.
      pose proof (tr_bound _ _ T _ Hin). lia.
    + intros i Hi. destruct Hcase as [(_ & E & _)|(El & E & _)];
        rewrite E in Hi; [discriminate|]. injection Hi as <-. lia.
    + intros s Hs. rewrite Ha in Hs. now apply (tr_active _ _ T).
    + intros j Hj Hl. rewrite Ha. rewrite Hlive in Hl by assumption.
      now apply (tr_live _ _ T).
    + intros j x Hj Hx. rewrite Hsame in Hx by assumption.
      now apply (tr_reasons _ _ T j).
    + intros e He. rewrite Hev in He. apply in_app_or in He as [He|He].
      * pose proof (tr_events _ _ T e He). lia.
      * now apply Hext.
    + rewrite Hev. rewrite <- (firstn_all ext), Hfilter, (tr_current _ _ T).
      unfold activeLive. rewrite Ha. destruct (activeSpan w) as [s|] eqn:Es;
        [|reflexivity].
      now rewrite (Hlive s (tr_active _ _ T s Es)).
    + rewrite Hev.
      apply (prefixes_app
               (fun p => (length (currentAfter (ofSpans R p) []) <= 1)%nat));
        [apply (tr_one _ _ T)|].
      intros k. rewrite Hfilter, (tr_current _ _ T). apply activeLive_length.
Qed.

Lemma Tracked_forget w R u :
  Tracked w R -> Tracked (withStartingUrl w u) R.
Proof. intros [H1 H2 H3 H4 H5 H6 H7 H8 H9]. now constructor. Qed.

Lemma startedByTracker_start o options page context w :
  seq (length (transactions (hub w)))
      (length (transactions (hub (startRouteSpan o options page context w)))
       - length (transactions (hub w)))
  = [length (transactions (hub w))].
Proof.
  rewrite length_startRouteSpan.
  replace (S (length (transactions (hub w))) - length (transactions (hub w)))%nat
    with 1%nat by lia.
  reflexivity.
Qed.

Lemma Tracked_act options page w R a :
  Tracked w R ->
  Tracked (act options page w a) (R ++ startedByTracker options page w a).
Proof.
  intros T.
  assert (Hstart : forall o context w0,
             Tracked w0 R ->
             length (transactions (hub w0)) = length (transactions (hub w)) ->
             Tracked (startRouteSpan o options page context w0)
                     (R ++ seq (length (transactions (hub w)))
                               (length (transactions
                                          (hub (startRouteSpan o options page
                                                               context w0)))
                                - length (transactions (hub w))))).
  { intros o context w0 T0 E. rewrite <- E, startedByTracker_start.
    apply (Tracked_startRouteSpan o options page context w0 R T0). }
  assert (Hsame : forall w0,
             Tracked w0 R ->
             length (transactions (hub w0)) = length (transactions (hub w)) ->
             Tracked w0 (R ++ seq (length (transactions (hub w)))
                                  (length (transactions (hub w0))
                                   - length (transactions (hub w))))).
  { intros w0 T0 E. rewrite E, Nat.sub_diag. simpl. now rewrite app_nil_r. }
  destruct a as [[context|context|reason|d]| |to from|];
    unfold startedByTracker; cbn [act signal].
  - now apply Hstart.
  - now apply Hstart.
  - destruct (activeSpan w) as [s|] eqn:Es; [|now apply Hsame].
    apply Hsame; [|apply length_finishWith].
    pose proof (Tracked_endsOrKeeps w R s _ T Es
                  (finishWith_endsOrKeeps s reason (hub w))) as T1.
    exact T1.
  - destruct (activeSpan w) as [s|] eqn:Es; [|now apply Hsame].
    apply Hsame; [|apply length_heartbeatTick].
    pose proof (Tracked_endsOrKeeps w R s _ T Es
                  (heartbeatTick_endsOrKeeps s d (hub w))) as T1.
    exact T1.
  - rewrite app_nil_r. now apply Tracked_click.
  - unfold onHistoryChange.
    destruct (pathname page) as [path|]; [|now apply Hsame].
    destruct (isTrue (Options.instrumentNavigation options)); [|now apply Hsame].
    destruct (match from with Some _ => _ | None => _ end).
    { apply Hsame; [now apply Tracked_forget|reflexivity]. }
    destruct (match from with Some f => _ | None => false end); [now apply Hsame|].
    apply Hstart; [now apply Tracked_forget|reflexivity].
  - unfold afterAllSetup.
    destruct (pathname page) as [path|]; [|now apply Hsame].
    destruct (isTrue (Options.instrumentPageLoad options)); [|now apply Hsame].
    now apply Hstart.
Qed.

Lemma Tracked_run options page l :
  forall w R,
    Tracked w R -> Tracked (run options page l w) (R ++ routeSpans options page l w).
Proof.
  unfold run. induction l as [|a t IH]; intros w R T; simpl.
  - now rewrite app_nil_r.
  - rewrite app_assoc. apply IH. now apply Tracked_act.
Qed.

Lemma Tracked_initial href : Tracked (initialWorld href) [].
Proof.
  constructor; simpl; try (intros; discriminate); try (intros; contradiction).
  - reflexivity.
  - intros n. rewrite firstn_nil. simpl. lia.
Qed.




(** * Construction and its collaborators *)


